(** * latest-pythons.py: the version selection of [get_latest_asdf_versions]

    A shallow embedding of [latest-pythons.py].  The pure part:
    [parse_asdf_output], [is_valid_version] and [get_latest_asdf_versions],
    together with the Python built-ins they call ([str.split], [str.strip],
    [str.isdigit], [str.startswith], [int], [max], [list.sort], [sorted],
    [set]).  The part with effects: [create_default_python_packages_file]
    as a function on the text of the packages file, and
    [add_asdf_python_plugin] and [install_python_versions] as state
    passing over that file and a trace of the commands run, the texts
    printed and the question asked.

    Conventions of the model.
    - A Python [str] is a [string]; a character is one code point in
      U+0000..U+00FF, so an [ascii] with code [n] stands for the code point
      [n] (Latin-1), not for a byte of an encoding.  The character tables
      below are the ones of Python 3 on that range.
    - A Python [int] that holds a parsed component is an [N] (such a value
      comes from a string of digits and is never negative); [count] is a
      [Z], as the caller may pass any integer.  Integers are unbounded;
      the conversion of a string to an integer has the limit on the number
      of digits that the interpreter starts with
      ([sys.get_int_max_str_digits()], 4300).
    - A Python exception is the [Raise] branch of [result]. *)

From Stdlib Require Import ZArith NArith Ascii String List.
From stdpp Require Import base tactics option list sorting gmap strings.

Local Open Scope string_scope.
Local Open Scope list_scope.

(** ** Exceptions *)

Inductive exn : Type :=
| ValueError
| IndexError.

Inductive result (A : Type) : Type :=
| Ok (a : A)
| Raise (e : exn).
Arguments Ok {A} a.
Arguments Raise {A} e.

Definition bind {A B} (r : result A) (k : A -> result B) : result B :=
  match r with
  | Ok a => k a
  | Raise e => Raise e
  end.

Notation "'let*' x ':=' r 'in' k" := (bind r (fun x => k))
  (at level 10, x name, r at level 100, k at level 200).

(** [[f(x) for x in l]] where [f] may raise: the first exception wins. *)
Fixpoint traverse {A B} (f : A -> result B) (l : list A) : result (list B) :=
  match l with
  | [] => Ok []
  | x :: l' =>
      let* y := f x in
      let* ys := traverse f l' in
      Ok (y :: ys)
  end.

(** ** Characters *)

Definition code (c : ascii) : N := N_of_ascii c.

(** [c.isspace()] for one character: the characters [str.strip()] removes.
    On U+0000..U+00FF these are TAB, LF, VT, FF, CR, FS, GS, RS, US, SPACE,
    NEL (U+0085) and NBSP (U+00A0). *)
Definition char_isspace (c : ascii) : bool :=
  let n := code c in
  ((9 <=? n) && (n <=? 13) || (28 <=? n) && (n <=? 32)
   || (n =? 133) || (n =? 160))%N.

(** The characters of Unicode type Decimal (general category Nd): the ones
    [int] reads as a digit.  On U+0000..U+00FF these are ['0'..'9']. *)
Definition char_isdecimal (c : ascii) : bool :=
  let n := code c in ((48 <=? n) && (n <=? 57))%N.

(** [c.isdigit()] for one character: Unicode type Decimal or Digit.  On
    U+0000..U+00FF these are ['0'..'9'] and the superscripts U+00B2, U+00B3
    and U+00B9. *)
Definition char_isdigit (c : ascii) : bool :=
  let n := code c in
  (char_isdecimal c || (n =? 178) || (n =? 179) || (n =? 185))%N.

(** LINE FEED, U+000A. *)
Definition newline : ascii := "010".

Definition digit_value (c : ascii) : N := (code c - 48)%N.

Definition digit_char (d : N) : ascii := ascii_of_N (48 + d).

(** ** Strings *)

Fixpoint str_forallb (p : ascii -> bool) (s : string) : bool :=
  match s with
  | EmptyString => true
  | String c s' => p c && str_forallb p s'
  end.

Definition str_is_empty (s : string) : bool :=
  match s with
  | EmptyString => true
  | String _ _ => false
  end.

(** [s.split(sep)] for a separator of one character: never the empty list. *)
Fixpoint split (sep : ascii) (s : string) : list string :=
  match s with
  | EmptyString => [EmptyString]
  | String c s' =>
      if Ascii.eqb c sep then EmptyString :: split sep s'
      else match split sep s' with
           | [] => [String c EmptyString]
           | p :: ps => String c p :: ps
           end
  end.

Fixpoint lstrip (s : string) : string :=
  match s with
  | EmptyString => EmptyString
  | String c s' => if char_isspace c then lstrip s' else s
  end.

Fixpoint rstrip (s : string) : string :=
  match s with
  | EmptyString => EmptyString
  | String c s' =>
      let r := rstrip s' in
      if str_is_empty r && char_isspace c then EmptyString else String c r
  end.

(** [s.strip()] *)
Definition strip (s : string) : string := rstrip (lstrip s).

(** [s.isdigit()]: at least one character, and every character a digit. *)
Definition isdigit (s : string) : bool :=
  negb (str_is_empty s) && str_forallb char_isdigit s.

(** [s.startswith(p)] *)
Fixpoint startswith (s p : string) {struct p} : bool :=
  match p with
  | EmptyString => true
  | String a p' =>
      match s with
      | EmptyString => false
      | String b s' => Ascii.eqb b a && startswith s' p'
      end
  end.

(** The limit of [int] on the number of digits of its argument, as the
    interpreter starts with it: [sys.get_int_max_str_digits()]. *)
Definition int_max_str_digits : N := 4300.

(** [int(s)] for a string [s] with [s.isdigit()], the only strings the
    program passes to it: the value in base ten when every character is a
    decimal and there are no more of them than the limit allows, leading
    zeros counted, and [ValueError] otherwise.  (Signs, blanks and
    underscores, which [int] also reads, do not pass [isdigit]; on
    U+0000..U+00FF the decimals are ['0'..'9'], those of other scripts,
    which [int] reads as well, lie above that range.) *)
Fixpoint int_digits (acc : N) (s : string) : N :=
  match s with
  | EmptyString => acc
  | String c s' => int_digits (10 * acc + digit_value c)%N s'
  end.

Definition int (s : string) : result N :=
  if negb (str_is_empty s) && str_forallb char_isdecimal s
     && (N.of_nat (String.length s) <=? int_max_str_digits)%N
  then Ok (int_digits 0 s)
  else Raise ValueError.

(** [str(n)], as in [f"{n}"]: the decimal numeral of [n].  The program
    formats only integers that [int] has read, whose numerals are within
    the limit of [int_max_str_digits], below which this conversion does not
    raise either. *)
Fixpoint str_digits (fuel : nat) (n : N) (acc : string) : string :=
  match fuel with
  | O => acc
  | S fuel' =>
      let acc' := String (digit_char (n mod 10)) acc in
      if (n / 10 =? 0)%N then acc' else str_digits fuel' (n / 10) acc'
  end.

Definition str (n : N) : string :=
  str_digits (S (N.to_nat (N.log2 n))) n EmptyString.

(** ** [parse_asdf_output] *)

(** [line.strip() and line.strip()[0].isdigit()] *)
Definition is_version_line (line : string) : bool :=
  match strip line with
  | EmptyString => false
  | String c _ => char_isdigit c
  end.

Definition parse_asdf_output (output : string) : list string :=
  let lines := split newline output in
  map strip (filter (fun line => is_version_line line = true) lines).

(** ** [is_valid_version] *)

Definition is_valid_version (version : string) : bool :=
  let parts := split "." version in
  (length parts =? 3)%nat && forallb isdigit parts.

(** ** Built-ins on lists and sets *)

(** [l[i]] *)
Definition index {A} (l : list A) (i : nat) : result A :=
  match l !! i with
  | Some x => Ok x
  | None => Raise IndexError
  end.

(** [max(l)]: raises on the empty sequence. *)
Definition py_max (l : list N) : result N :=
  match l with
  | [] => Raise ValueError
  | x :: l' => Ok (foldl N.max x l')
  end.

(** The order of Python on pairs of integers, [a <= b]. *)
Definition pair_leb (a b : N * N) : bool :=
  ((a.1 <? b.1) || (a.1 =? b.1) && (a.2 <=? b.2))%N.

(** [a] may stand before [b] in a list in descending order. *)
Definition pair_ge (a b : N * N) : Prop := pair_leb b a = true.

(** The order of Python on strings, code point by code point. *)
Definition str_ge (a b : string) : Prop := String.le b a.

#[global] Instance pair_ge_dec : RelDecision pair_ge.
Proof. intros a b. unfold pair_ge. apply _. Defined.

#[global] Instance str_ge_dec : RelDecision str_ge.
Proof. intros a b. unfold str_ge. apply _. Defined.

(** [l.sort(reverse=True)] on pairs and [sorted(l, reverse=True)] on
    strings.  Both orders are total and antisymmetric, so the outcome is
    the one descending arrangement of [l], whatever the algorithm. *)
Definition sort_reverse (l : list (N * N)) : list (N * N) :=
  merge_sort pair_ge l.

Definition sorted_reverse (l : list string) : list string :=
  merge_sort str_ge l.

(** ** [get_latest_asdf_versions] *)

(** [(int(v.split('.')[1]), int(v.split('.')[2]))] *)
Definition minor_patch (v : string) : result (N * N) :=
  let* p1 := index (split "." v) 1 in
  let* minor := int p1 in
  let* p2 := index (split "." v) 2 in
  let* patch := int p2 in
  Ok (minor, patch).

(** The loop of lines 119-123 from its current position [l], with the set
    built so far. *)
Fixpoint collect_minors (l : list (N * N)) (count : Z) (latest_minors : gset N)
  : gset N :=
  match l with
  | [] => latest_minors
  | (minor, _) :: l' =>
      let latest_minors := {[minor]} ∪ latest_minors in
      if (Z.of_nat (size latest_minors) =? count)%Z then latest_minors
      else collect_minors l' count latest_minors
  end.

(** [[patch for m, patch in minor_patch_versions if m == minor]] *)
Definition patches_of (minor : N) (minor_patch_versions : list (N * N)) : list N :=
  map snd (filter (fun mp => mp.1 = minor) minor_patch_versions).

(** [f"3.{minor}.{highest_patch}"] *)
Definition format_version (minor highest_patch : N) : string :=
  "3." +:+ str minor +:+ "." +:+ str highest_patch.

(** The body of the loop of lines 126-128. *)
Definition select_version (minor_patch_versions : list (N * N)) (minor : N)
  : result string :=
  let* highest_patch := py_max (patches_of minor minor_patch_versions) in
  Ok (format_version minor highest_patch).

Definition valid_versions (output : string) : list string :=
  filter (fun v => startswith v "3." && is_valid_version v = true)
         (parse_asdf_output output).

(** Lines 116-130, for the list [valid_versions] of line 115.  The set
    [latest_minors] is visited in the order of [elements]; Python leaves
    the order open, and the last line sorts it away. *)
Definition latest_of_valid (valid_versions : list string) (count : Z)
  : result (list string) :=
  let* minor_patch_versions := traverse minor_patch valid_versions in
  let minor_patch_versions := sort_reverse minor_patch_versions in
  let latest_minors := collect_minors minor_patch_versions count ∅ in
  let* selected_versions :=
    traverse (select_version minor_patch_versions) (elements latest_minors) in
  Ok (sorted_reverse selected_versions).

Definition get_latest_asdf_versions (output : string) (count : Z)
  : result (list string) :=
  latest_of_valid (valid_versions output) count.

(** ** [create_default_python_packages_file] *)

(** The file [~/.default-python-packages] is [None] when the path does not
    exist and [Some content] when it does, [content] being the text in the
    file.  When it exists it is taken to be a regular file that can be read
    as text and written; the script runs on Linux, where a written ["\n"]
    is stored as it is. *)

(** CARRIAGE RETURN, U+000D. *)
Definition carriage_return : ascii := "013".

(** What a file opened for reading in text mode hands out: [\r\n] and a
    lone [\r] are read as [\n].  [after_cr] tells that the character before
    was a [\r]. *)
Fixpoint universal_newlines (after_cr : bool) (s : string) : string :=
  match s with
  | EmptyString => EmptyString
  | String c s' =>
      if Ascii.eqb c carriage_return
      then String newline (universal_newlines true s')
      else if Ascii.eqb c newline
      then if after_cr then universal_newlines false s'
           else String newline (universal_newlines false s')
      else String c (universal_newlines false s')
  end.

(** [file.readlines()] on the text read: the lines, each with its [\n]; the
    last one has none when the text does not end with one. *)
Fixpoint readlines (s : string) : list string :=
  match s with
  | EmptyString => []
  | String c s' =>
      if Ascii.eqb c newline then String c EmptyString :: readlines s'
      else match readlines s' with
           | [] => [String c EmptyString]
           | line :: lines => String c line :: lines
           end
  end.

Definition packages : list string := ["pip"; "setuptools"; "wheel"].

(** [set(line.strip() for line in file.readlines())] *)
Definition existing_packages (content : string) : gset string :=
  list_to_set (map strip (readlines (universal_newlines false content))).

(** [file.write(package + "\n")] at the end of [content]. *)
Definition write_line (content package : string) : string :=
  content +:+ package +:+ String newline EmptyString.

Definition create_default_python_packages_file (file : option string)
  : option string :=
  match file with
  | Some content =>
      let existing_packages := existing_packages content in
      Some (foldl (fun content package =>
                     if decide (package ∈ existing_packages) then content
                     else write_line content package)
                  content packages)
  | None => Some (foldl write_line EmptyString packages)
  end.

(** ** The script and its surroundings *)

(** What the script does to its surroundings is modelled as a state, the
    packages file and the trace of what the script has done so far, passed
    through the functions; the surroundings answer through [run_command],
    the outcome of a command line, and [stdin], the line the user types.
    A command line is run at most once in a call of the script, so that its
    outcome is a function of the command line.  The output of a command is
    the text after decoding.

    Left out of the model: an output that is not valid UTF-8 (where
    [decode] raises), a program that is found and cannot be started, the
    errors of opening, reading and writing the packages file, a failing
    [print], and signals such as an interrupt from the keyboard. *)

(** The outcome of a command: the program is not found, or it runs and
    ends with an exit status and its standard output. *)
Inductive proc_outcome : Type :=
| NotFound
| Exited (status : Z) (stdout : string).

(** The exceptions of the script: those of [subprocess] and [input], and
    the ones that come out of [get_latest_asdf_versions]. *)
Inductive script_exn : Type :=
| CalledProcessError (argv : list string) (status : Z)
| FileNotFoundError
| EOFError
| CodeError (e : exn).

(** The texts the script prints, one for each [print] of the source. *)
Inductive message : Type :=
| PluginAdded
| PluginError (e : script_exn)
| NoValidVersions
| WillBeInstalled (versions : list string)
| GlobalDefault (version : string)
| InstallationCancelled
| Installing (version : string)
| FailedToInstall (version : string) (e : script_exn)
| SettingGlobal (versions : list string)
| Verifying
| InstalledVersions (text : string)
| ErrorMessage (e : script_exn)
| EnsureAsdf.

Inductive event : Type :=
| Call (argv : list string)
| Print (m : message)
| Prompt.

Record state : Type := {
  file : option string;
  trace : list event
}.

(** How a piece of the script ends when it does not run to its end. *)
Inductive stop : Type :=
| Raised (e : script_exn)
| SystemExit (status : Z).

Inductive outcome (A : Type) : Type :=
| Done (a : A)
| Stop (s : stop).
Arguments Done {A} a.
Arguments Stop {A} s.

Definition script (A : Type) : Type := state -> outcome A * state.

Definition ret {A} (a : A) : script A := fun s => (Done a, s).

Definition and_then {A B} (c : script A) (k : A -> script B) : script B :=
  fun s =>
    match c s with
    | (Done a, s') => k a s'
    | (Stop r, s') => (Stop r, s')
    end.

Notation "'let!' x ':=' c 'in' k" := (and_then c (fun x => k))
  (at level 10, x name, c at level 100, k at level 200).
Notation "c1 ';;;' c2" := (and_then c1 (fun _ => c2))
  (at level 100, c2 at level 200, right associativity).

Definition raise {A} (e : script_exn) : script A :=
  fun s => (Stop (Raised e), s).

(** [sys.exit(status)] *)
Definition sys_exit {A} (status : Z) : script A :=
  fun s => (Stop (SystemExit status), s).

Definition emit (e : event) : script unit :=
  fun s => (Done tt, {| file := file s; trace := trace s ++ [e] |}).

(** [print(...)] *)
Definition print (m : message) : script unit := emit (Print m).

(** [try: c  except subprocess.CalledProcessError as e: handler] *)
Definition except_called_process_error {A}
    (c : script A) (handler : script_exn -> script A) : script A :=
  fun s =>
    match c s with
    | (Stop (Raised (CalledProcessError argv status)), s') =>
        handler (CalledProcessError argv status) s'
    | r => r
    end.

(** [for x in l: body] *)
Fixpoint for_each {A} (l : list A) (body : A -> script unit) : script unit :=
  match l with
  | [] => ret tt
  | x :: l' => body x ;;; for_each l' body
  end.

(** A value or an exception of the pure functions, inside the script. *)
Definition lift {A} (r : result A) : script A :=
  match r with
  | Ok a => ret a
  | Raise e => raise (CodeError e)
  end.

(** [c.lower()] for one character of U+0000..U+00FF: the capital letters
    [A..Z] and U+00C0..U+00DE, the sign U+00D7 apart, move up by 32. *)
Definition char_lower (c : ascii) : ascii :=
  let n := code c in
  if ((65 <=? n) && (n <=? 90)
      || (192 <=? n) && (n <=? 222) && negb (n =? 215))%N
  then ascii_of_N (n + 32)
  else c.

(** [s.lower()] *)
Fixpoint lower (s : string) : string :=
  match s with
  | EmptyString => EmptyString
  | String c s' => String (char_lower c) (lower s')
  end.

(** [sub in s] *)
Fixpoint contains (s sub : string) : bool :=
  startswith s sub ||
  match s with
  | EmptyString => false
  | String _ s' => contains s' sub
  end.

Section script.

Variable run_command : list string -> proc_outcome.
Variable stdin : option string.

(** [subprocess.run(argv)] and [subprocess.run(argv, check=True)]: a
    program that is not found raises [FileNotFoundError]; with [check], an
    exit status other than zero raises [CalledProcessError]. *)
Definition subprocess_run (argv : list string) (check : bool) : script unit :=
  emit (Call argv) ;;;
  match run_command argv with
  | NotFound => raise FileNotFoundError
  | Exited status _ =>
      if check && negb (status =? 0)%Z
      then raise (CalledProcessError argv status)
      else ret tt
  end.

(** [subprocess.check_output(argv).decode('utf-8')] *)
Definition check_output (argv : list string) : script string :=
  emit (Call argv) ;;;
  match run_command argv with
  | NotFound => raise FileNotFoundError
  | Exited status stdout =>
      if negb (status =? 0)%Z
      then raise (CalledProcessError argv status)
      else ret stdout
  end.

(** [input(prompt)]: the line typed, or [EOFError] at the end of the
    input. *)
Definition input : script string :=
  emit Prompt ;;;
  match stdin with
  | Some line => ret line
  | None => raise EOFError
  end.

(** [create_default_python_packages_file()] on the file of the state. *)
Definition create_default_python_packages_file_step : script unit :=
  fun s =>
    (Done tt, {| file := create_default_python_packages_file (file s);
                 trace := trace s |}).

(** ** [add_asdf_python_plugin] *)

Definition add_asdf_python_plugin : script unit :=
  except_called_process_error
    (let! existing_plugins := check_output ["asdf"; "plugin"; "list"] in
     if negb (contains existing_plugins "python")
     then subprocess_run ["asdf"; "plugin"; "add"; "python"] false ;;;
          print PluginAdded
     else ret tt)
    (fun e => print (PluginError e)).

(** ** [install_python_versions] *)

(** The body of the loop of lines 164-170. *)
Definition install_version (version : string) : script unit :=
  print (Installing version) ;;;
  except_called_process_error
    (subprocess_run ["asdf"; "install"; "python"; version] true)
    (fun e => print (FailedToInstall version e)).

Definition install_python_versions (count : Z) : script unit :=
  create_default_python_packages_file_step ;;;
  add_asdf_python_plugin ;;;
  except_called_process_error
    (subprocess_run ["asdf"; "--version"] true ;;;
     let! output := check_output ["asdf"; "list"; "all"; "python"] in
     let! versions := lift (get_latest_asdf_versions output count) in
     match versions with
     | [] => print NoValidVersions
     | version0 :: _ =>
         print (WillBeInstalled versions) ;;;
         print (GlobalDefault version0) ;;;
         let! line := input in
         let response := lower (strip line) in
         if negb (str_is_empty response) && negb (String.eqb response "y")
         then print InstallationCancelled
         else
           for_each versions install_version ;;;
           let asdf_global_command := ["asdf"; "global"; "python"] ++ versions in
           print (SettingGlobal versions) ;;;
           subprocess_run asdf_global_command true ;;;
           print Verifying ;;;
           let! installed_versions := check_output ["asdf"; "list"; "python"] in
           print (InstalledVersions installed_versions)
     end)
    (fun e => print (ErrorMessage e) ;;; print EnsureAsdf ;;; sys_exit 1).

(** The script: [install_python_versions(count=3)] from a fresh trace. *)
Definition main (file0 : option string) : outcome unit * state :=
  install_python_versions 3 {| file := file0; trace := [] |}.

End script.

(** * Notions used to state the properties *)

(** ** Texts *)

(** [sep] does not occur in [s]. *)
Definition no_char (sep : ascii) (s : string) : bool :=
  str_forallb (fun c => negb (Ascii.eqb c sep)) s.

(** [sep.join(l)], the inverse of [split]. *)
Fixpoint join (sep : ascii) (l : list string) : string :=
  match l with
  | [] => EmptyString
  | x :: l' =>
      match l' with
      | [] => x
      | _ :: _ => x +:+ String sep (join sep l')
      end
  end.

(** Nothing is left to strip at either end of [s]. *)
Definition trimmed (s : string) : Prop := lstrip s = s /\ rstrip s = s.

Definition begins_with_digit (s : string) : bool :=
  match s with
  | EmptyString => false
  | String c _ => char_isdigit c
  end.

Definition begins_with_decimal (s : string) : bool :=
  match s with
  | EmptyString => false
  | String c _ => char_isdecimal c
  end.

(** ** Numerals *)

(** [s] is one or more decimal characters: what [int] reads. *)
Definition is_decimal (s : string) : bool :=
  negb (str_is_empty s) && str_forallb char_isdecimal s.

(** [s] has no more characters than [int] accepts digits. *)
Definition within_limit (s : string) : bool :=
  (N.of_nat (String.length s) <=? int_max_str_digits)%N.

(** [s] is the numeral 0, or does not begin with the digit 0. *)
Definition no_leading_zero (s : string) : Prop :=
  s = "0" \/ exists c r, s = String c r /\ c <> "0"%char.

(** A run of [k] zeros. *)
Fixpoint zeros (k : nat) : string :=
  match k with
  | O => EmptyString
  | S k' => String "0" (zeros k')
  end.

(** ** Versions *)

(** The text [3.a.b]. *)
Definition dotted (a b : string) : string :=
  String "3" (String "." (a +:+ String "." b)).

Definition format_pair (mp : N * N) : string := format_version mp.1 mp.2.

(** The pattern [^3\.\d+\.\d+$], read from left to right: [\d] is a
    decimal, and [\d+] takes all the decimals there are, since what follows
    it is not one. *)
Fixpoint skip_decimals (s : string) : string :=
  match s with
  | EmptyString => EmptyString
  | String c s' => if char_isdecimal c then skip_decimals s' else s
  end.

Definition matches_version_pattern (s : string) : bool :=
  match s with
  | String "3" (String "." r1) =>
      begins_with_decimal r1 &&
      match skip_decimals r1 with
      | String "." r2 =>
          begins_with_decimal r2 && str_is_empty (skip_decimals r2)
      | _ => false
      end
  | _ => false
  end.

(** ** The selection *)

(** The distinct minor numbers of a list of pairs. *)
Definition minors_of (l : list (N * N)) : gset N := list_to_set (l.*1).

(** The highest patch of a minor that occurs in [l] (and 0 for one that
    does not, where the program's [max] would raise). *)
Definition highest_patch (l : list (N * N)) (minor : N) : N :=
  match py_max (patches_of minor l) with
  | Ok p => p
  | Raise _ => 0%N
  end.

(** The set [latest_minors] after the loop of lines 119-123, and the pairs
    the program assembles from it, in the order in which it visits the
    set. *)
Definition latest_set (pairs : list (N * N)) (count : Z) : gset N :=
  collect_minors (sort_reverse pairs) count ∅.

Definition selection (pairs : list (N * N)) (count : Z) : list (N * N) :=
  map (fun minor => (minor, highest_patch pairs minor))
      (elements (latest_set pairs count)).

(** [l] is in strictly descending order. *)
Definition strictly_descending (l : list N) : Prop :=
  Sorted (fun a b => (b < a)%N) l.

(** [f] where it returns, and [d] where it raises. *)
Definition unwrap {A B} (f : A -> result B) (d : B) (x : A) : B :=
  match f x with
  | Ok y => y
  | Raise _ => d
  end.

(** ** The words of the specification *)

(** The candidate lines as the specification words them: the lines,
    trimmed, of which those are kept that are not empty and begin with a
    digit. *)
Definition extractCandidateLines (text : string) : list string :=
  filter (fun line => line <> EmptyString /\ begins_with_digit line = true)
         (map strip (split newline text)).

(** Well-formedness as the specification words it: three parts between
    the dots, each of one or more decimal digits. *)
Definition isWellFormedVersion (line : string) : bool :=
  match split "." line with
  | [a; b; c] => is_decimal a && is_decimal b && is_decimal c
  | _ => false
  end.

(** The value of a numeral in base ten. *)
Definition decimal_value (numeral : string) : N :=
  foldl (fun value c => (10 * value + (code c - 48))%N) 0%N
        (list_ascii_of_string numeral).

(** ParsedVersion: the minor and the patch of a well-formed version, as
    integers. *)
Definition parsed_version (line : string) : N * N :=
  match split "." line with
  | [_; minor; patch] => (decimal_value minor, decimal_value patch)
  | _ => (0, 0)%N
  end.

(** The eligible versions of a text: its lines, trimmed, that are
    well-formed versions and start with [3.]. *)
Definition eligible_versions (text : string) : list string :=
  filter (fun line => isWellFormedVersion line && startswith line "3." = true)
         (map strip (split newline text)).

Definition eligible_pairs (text : string) : list (N * N) :=
  map parsed_version (eligible_versions text).

(** A well-formed version each of whose parts [int] reads: none has more
    digits than the limit allows. *)
Definition readable_version (line : string) : bool :=
  isWellFormedVersion line && forallb within_limit (split "." line).

(** ** Sample listings *)

(** SUPERSCRIPT TWO, U+00B2: a digit for [isdigit], and no decimal. *)
Definition superscript_two : ascii := "178".

(** The line [3.1.²]. *)
Definition version_with_superscript : string :=
  "3.1." +:+ String superscript_two EmptyString.

Definition listing_with_superscript : string :=
  join newline ["3.12.1"; "3.11.7"; version_with_superscript].

Definition listing_3_9_and_3_10 : string :=
  join newline ["3.9.18"; "3.10.14"].

Definition listing_of_scenario_1 : string :=
  join newline
    ["3.10.13"; "3.10.14"; "3.11.6"; "3.11.7"; "3.12.0"; "3.12.1"; "3.9.18"].

Definition listing_of_scenario_4 : string :=
  join newline ["3.12.1"; "3.12.0"; "3.12.1"; "3.11.7"].

Definition listing_without_eligible : string :=
  join newline ["Available versions:"; "2.7.18"; "3.13"; "3.13.0rc1"; ""].

(** ** The packages file *)

Fixpoint last_char (s : string) : option ascii :=
  match s with
  | EmptyString => None
  | String c s' =>
      match s' with
      | EmptyString => Some c
      | String _ _ => last_char s'
      end
  end.

(** The text is empty or ends with the end of a line. *)
Definition ends_with_line_end (content : string) : bool :=
  match last_char content with
  | None => true
  | Some c => Ascii.eqb c newline || Ascii.eqb c carriage_return
  end.

(** The file is absent, or its text is empty or ends with the end of a
    line. *)
Definition well_terminated (file : option string) : bool :=
  match file with
  | None => true
  | Some content => ends_with_line_end content
  end.

(** The text ends with a character that is not white space. *)
Definition ends_with_nonspace (content : string) : bool :=
  match last_char content with
  | None => false
  | Some c => negb (char_isspace c)
  end.

(** The packages of the program that the file does not list, in the order
    in which the program writes them. *)
Definition missing_packages (content : string) : list string :=
  filter (fun package => package ∉ existing_packages content) packages.

(** The lines written for a list of packages. *)
Fixpoint written (l : list string) : string :=
  match l with
  | [] => EmptyString
  | package :: l' => package +:+ String newline (written l')
  end.

(** A word: one or more characters, none of them white space. *)
Definition is_word (s : string) : bool :=
  negb (str_is_empty s) && str_forallb (fun c => negb (char_isspace c)) s.

(** A file with one package of the user and [pip] on a line of its own
    kind. *)
Definition packages_file_with_numpy : string :=
  "numpy" +:+ String newline (" pip " +:+ String carriage_return "").

(** ** The script *)

(** [response and response != 'y'] for the line the user types. *)
Definition cancels (line : string) : bool :=
  let response := lower (strip line) in
  negb (str_is_empty response) && negb (String.eqb response "y").

(** The commands the script runs before it asks the user. *)
Definition preliminary_commands : list (list string) :=
  [ ["asdf"; "plugin"; "list"]; ["asdf"; "plugin"; "add"; "python"];
    ["asdf"; "--version"]; ["asdf"; "list"; "all"; "python"] ].

Definition install_command (version : string) : list string :=
  ["asdf"; "install"; "python"; version].

Definition global_command (versions : list string) : list string :=
  ["asdf"; "global"; "python"] ++ versions.

(** What one round of the loop of lines 164-170 adds to the trace when the
    program is found. *)
Definition install_events (run_command : list string -> proc_outcome)
    (version : string) : list event :=
  Print (Installing version) :: Call (install_command version) ::
  match run_command (install_command version) with
  | Exited status _ =>
      if negb (status =? 0)%Z
      then [Print (FailedToInstall version
                     (CalledProcessError (install_command version) status))]
      else []
  | NotFound => []
  end.

(** The command lines of a trace, in their order. *)
Fixpoint calls (t : list event) : list (list string) :=
  match t with
  | [] => []
  | Call argv :: t' => argv :: calls t'
  | _ :: t' => calls t'
  end.

(** The command lines that change what is installed: [asdf install ...]
    and [asdf global ...]. *)
Definition changes_installation (argv : list string) : bool :=
  match argv with
  | program :: command :: _ =>
      String.eqb program "asdf" &&
      (String.eqb command "install" || String.eqb command "global")
  | _ => false
  end.

(** The commands whose exit status the outer [try] of
    [install_python_versions] checks. *)
Definition checked_command (argv : list string) : Prop :=
  argv = ["asdf"; "--version"] \/ argv = ["asdf"; "list"; "all"; "python"] \/
  argv = ["asdf"; "list"; "python"] \/ exists versions, argv = global_command versions.

(** What the call has added to the trace of [s]. *)
Definition added (s : state) (r : outcome unit * state) : list event :=
  drop (length (trace s)) (trace r.2).

(** An [asdf] with the plugin in place, that lists [listing] and installs
    every version but [3.11.7]. *)
Definition sample_asdf (listing : string) (argv : list string) : proc_outcome :=
  if decide (argv = ["asdf"; "plugin"; "list"]) then Exited 0 "python"
  else if decide (argv = ["asdf"; "list"; "all"; "python"]) then Exited 0 listing
  else if decide (argv = install_command "3.11.7") then Exited 1 ""
  else Exited 0 "".

(** An [asdf] whose every command ends with the status 2. *)
Definition broken_asdf (argv : list string) : proc_outcome := Exited 2 "".

Definition fresh : state := {| file := None; trace := [] |}.

(** A piece of the script that leaves the file alone. *)
Definition keeps_file {A} (c : script A) : Prop :=
  forall s, file (c s).2 = file s.

(** * Properties *)

(** ** The error monad *)

Section traverse.
Context {A B : Type} (f : A -> result B).

Lemma traverse_ok_map (g : A -> B) (l : list A) :
  (forall x, x ∈ l -> f x = Ok (g x)) -> traverse f l = Ok (map g l).
Proof.
  induction l as [|x l IH]; intros H; simpl; [done|].
  rewrite (H x) by left. simpl.
  rewrite IH; [done|]. intros y Hy. apply H. by right.
Qed.

Lemma traverse_ok_inv (l : list A) (ys : list B) :
  traverse f l = Ok ys -> Forall2 (fun x y => f x = Ok y) l ys.
Proof.
  revert ys. induction l as [|x l IH]; intros ys; simpl.
  - intros [= <-]. constructor.
  - destruct (f x) as [y|e] eqn:Hx; simpl; [|done].
    destruct (traverse f l) as [ys'|e] eqn:Hl; simpl; [|done].
    intros [= <-]. constructor; [done|]. by apply IH.
Qed.

Lemma traverse_raise (l : list A) (e : exn) :
  traverse f l = Raise e -> exists x, x ∈ l /\ f x = Raise e.
Proof.
  induction l as [|x l IH]; simpl; [done|].
  destruct (f x) as [y|e'] eqn:Hx; simpl.
  - destruct (traverse f l) as [ys'|e'] eqn:Hl; simpl; [done|].
    intros [= ->]. destruct IH as (z & Hz & Hfz); [done|].
    exists z. split; [by right | done].
  - intros [= ->]. exists x. split; [by left | done].
Qed.

(** If the only exception [f] can raise on [l] is [e], a failing element
    makes the comprehension raise [e]. *)
Lemma traverse_raise_intro (l : list A) (e : exn) x :
  x ∈ l -> f x = Raise e ->
  (forall y e', y ∈ l -> f y = Raise e' -> e' = e) ->
  traverse f l = Raise e.
Proof.
  intros Hx Hfx Honly.
  destruct (traverse f l) as [ys|e'] eqn:Ht.
  - apply traverse_ok_inv in Ht.
    apply list_elem_of_lookup in Hx as [i Hi].
    destruct (Forall2_lookup_l _ _ _ _ _ Ht Hi) as (y & _ & Hy). congruence.
  - apply traverse_raise in Ht as (y & Hy & Hfy).
    by rewrite (Honly y e' Hy Hfy).
Qed.

Lemma traverse_ok_unwrap (d : B) l :
  (forall x, x ∈ l -> exists y, f x = Ok y) ->
  traverse f l = Ok (map (unwrap f d) l).
Proof.
  intros H. apply traverse_ok_map. intros x (y & Hy)%H.
  unfold unwrap. by rewrite Hy.
Qed.

Lemma traverse_ok_elem_of l ys y :
  traverse f l = Ok ys ->
  y ∈ ys <-> exists x, x ∈ l /\ f x = Ok y.
Proof.
  intros Hall%traverse_ok_inv. split.
  - intros [i Hi]%list_elem_of_lookup.
    destruct (Forall2_lookup_r _ _ _ _ _ Hall Hi) as (x & Hx & Hfx).
    exists x. split; [|done]. apply list_elem_of_lookup. by exists i.
  - intros (x & [i Hi]%list_elem_of_lookup & Hfx).
    destruct (Forall2_lookup_l _ _ _ _ _ Hall Hi) as (y' & Hy & Hfy).
    assert (y' = y) as -> by congruence.
    apply list_elem_of_lookup. by exists i.
Qed.

End traverse.

(** ** Splitting and joining *)

Lemma split_not_nil sep s : split sep s <> [].
Proof.
  destruct s as [|c s]; simpl; [done|].
  destruct (Ascii.eqb c sep); [done|]. by destruct (split sep s).
Qed.

Lemma split_no_char sep s : no_char sep s = true -> split sep s = [s].
Proof.
  induction s as [|c s IH]; simpl; [done|].
  intros [Hc Hs]%andb_true_iff. apply negb_true_iff in Hc.
  rewrite Hc. by rewrite IH.
Qed.

Lemma split_app_sep sep a b :
  no_char sep a = true -> split sep (a +:+ String sep b) = a :: split sep b.
Proof.
  induction a as [|c a IH]; simpl.
  - intros _. by rewrite Ascii.eqb_refl.
  - intros [Hc Ha]%andb_true_iff. apply negb_true_iff in Hc.
    rewrite Hc. by rewrite IH.
Qed.

Lemma split_parts_no_char sep s :
  Forall (fun p => no_char sep p = true) (split sep s).
Proof.
  induction s as [|c s IH]; simpl.
  - by repeat constructor.
  - destruct (Ascii.eqb c sep) eqn:Hc; [by constructor|].
    pose proof (split_not_nil sep s) as Hnn.
    destruct (split sep s) as [|p ps]; [done|].
    inversion IH; subst. constructor; [|done].
    unfold no_char in *. simpl. rewrite Hc. done.
Qed.

Lemma join_split sep s : join sep (split sep s) = s.
Proof.
  induction s as [|c s IH]; simpl; [done|].
  destruct (Ascii.eqb_spec c sep) as [->|Hne].
  - pose proof (split_not_nil sep s) as Hnn.
    simpl. destruct (split sep s) as [|p ps]; [done|].
    simpl. simpl in IH. by rewrite IH.
  - pose proof (split_not_nil sep s) as Hnn.
    destruct (split sep s) as [|p ps]; [done|].
    simpl in *. destruct ps; simpl in *; by rewrite <- IH.
Qed.

Lemma split_join sep l :
  l <> [] -> Forall (fun p => no_char sep p = true) l ->
  split sep (join sep l) = l.
Proof.
  induction l as [|x l IH]; [done|]. intros _ Hall.
  inversion Hall as [|? ? Hx Hl]; subst.
  destruct l as [|y l].
  - simpl. by apply split_no_char.
  - change (join sep (x :: y :: l)) with (x +:+ String sep (join sep (y :: l))).
    rewrite split_app_sep by done. by rewrite IH.
Qed.

(** ** Stripping *)

Lemma lstrip_head s :
  lstrip s = EmptyString \/
  exists c r, lstrip s = String c r /\ char_isspace c = false.
Proof.
  induction s as [|c s IH]; simpl; [by left|].
  destruct (char_isspace c) eqn:Hc; [done|]. right. by exists c, s.
Qed.

Lemma rstrip_idemp s : rstrip (rstrip s) = rstrip s.
Proof.
  induction s as [|c s IH]; simpl; [done|].
  destruct (str_is_empty (rstrip s) && char_isspace c) eqn:Hb; simpl; [done|].
  by rewrite IH, Hb.
Qed.

Lemma rstrip_cons_nonspace c s :
  char_isspace c = false -> rstrip (String c s) = String c (rstrip s).
Proof. intros Hc. simpl. by rewrite Hc, andb_false_r. Qed.

Lemma strip_trimmed s : trimmed (strip s).
Proof.
  unfold trimmed, strip. split; [|apply rstrip_idemp].
  destruct (lstrip_head s) as [->|(c & r & -> & Hc)]; [done|].
  rewrite rstrip_cons_nonspace by done. simpl. by rewrite Hc.
Qed.

Lemma lstrip_no_space s :
  str_forallb (fun c => negb (char_isspace c)) s = true -> lstrip s = s.
Proof.
  destruct s as [|c s]; simpl; [done|].
  intros [Hc _]%andb_true_iff. apply negb_true_iff in Hc. by rewrite Hc.
Qed.

Lemma rstrip_no_space s :
  str_forallb (fun c => negb (char_isspace c)) s = true -> rstrip s = s.
Proof.
  induction s as [|c s IH]; simpl; [done|].
  intros [Hc Hs]%andb_true_iff. apply negb_true_iff in Hc.
  by rewrite Hc, andb_false_r, IH.
Qed.

Lemma strip_no_space s :
  str_forallb (fun c => negb (char_isspace c)) s = true -> strip s = s.
Proof.
  intros H. unfold strip. rewrite lstrip_no_space by done.
  by apply rstrip_no_space.
Qed.

(** ** Decimal numerals *)

Lemma str_forallb_impl (p q : ascii -> bool) s :
  (forall c, p c = true -> q c = true) ->
  str_forallb p s = true -> str_forallb q s = true.
Proof.
  intros Hpq. induction s as [|c s IH]; simpl; [done|].
  intros [Hc Hs]%andb_true_iff. apply andb_true_iff. auto.
Qed.

Lemma str_forallb_app p s1 s2 :
  str_forallb p (s1 +:+ s2) = str_forallb p s1 && str_forallb p s2.
Proof.
  induction s1 as [|c s1 IH]; simpl; [done|]. by rewrite IH, andb_assoc.
Qed.

Lemma char_isdecimal_isdigit c : char_isdecimal c = true -> char_isdigit c = true.
Proof. unfold char_isdigit. by intros ->. Qed.

Lemma char_isdecimal_not_space c :
  char_isdecimal c = true -> negb (char_isspace c) = true.
Proof.
  unfold char_isdecimal, char_isspace. generalize (code c). intros n.
  rewrite negb_true_iff. intros [H1 H2]%andb_true_iff.
  apply N.leb_le in H1, H2.
  repeat (apply orb_false_iff; split); try apply andb_false_iff;
    rewrite ?N.leb_gt, ?N.eqb_neq; lia.
Qed.

Lemma char_isdigit_not_dot c :
  char_isdigit c = true -> negb (Ascii.eqb c ".") = true.
Proof.
  intros H. apply negb_true_iff. destruct (Ascii.eqb_spec c ".") as [->|]; done.
Qed.

Lemma is_decimal_isdigit s : is_decimal s = true -> isdigit s = true.
Proof.
  unfold is_decimal, isdigit. intros [H1 H2]%andb_true_iff.
  rewrite H1. simpl. revert H2. apply str_forallb_impl, char_isdecimal_isdigit.
Qed.

Lemma isdigit_no_dot s : isdigit s = true -> no_char "." s = true.
Proof.
  unfold isdigit, no_char. intros [_ H]%andb_true_iff. revert H.
  apply str_forallb_impl, char_isdigit_not_dot.
Qed.

Lemma int_decimal s :
  is_decimal s = true -> within_limit s = true -> int s = Ok (int_digits 0 s).
Proof. unfold int, is_decimal, within_limit. by intros -> ->. Qed.

Lemma int_not_decimal s : is_decimal s = false -> int s = Raise ValueError.
Proof. unfold int, is_decimal. by intros ->. Qed.

Lemma int_too_long s : within_limit s = false -> int s = Raise ValueError.
Proof. unfold int, within_limit. intros ->. by rewrite andb_false_r. Qed.

Lemma int_ok_inv s n :
  int s = Ok n ->
  is_decimal s = true /\ within_limit s = true /\ n = int_digits 0 s.
Proof.
  unfold int, is_decimal, within_limit.
  destruct (negb (str_is_empty s) && str_forallb char_isdecimal s); [|done].
  destruct (N.of_nat (String.length s) <=? int_max_str_digits)%N; [|done].
  by intros [= <-].
Qed.

Lemma int_cases s : (exists n, int s = Ok n) \/ int s = Raise ValueError.
Proof. unfold int. destruct (_ && _); [left; by eexists|by right]. Qed.

Lemma digit_char_code d : (d < 10)%N -> code (digit_char d) = (48 + d)%N.
Proof.
  intros Hd. unfold code, digit_char. apply N_ascii_embedding. lia.
Qed.

Lemma digit_char_decimal d : (d < 10)%N -> char_isdecimal (digit_char d) = true.
Proof.
  intros Hd. unfold char_isdecimal. rewrite digit_char_code by done.
  apply andb_true_iff. split; apply N.leb_le; lia.
Qed.

Lemma digit_value_char d : (d < 10)%N -> digit_value (digit_char d) = d.
Proof. intros Hd. unfold digit_value. rewrite digit_char_code by done. lia. Qed.

Lemma string_app_assoc (s1 s2 s3 : string) :
  (s1 +:+ s2) +:+ s3 = s1 +:+ (s2 +:+ s3).
Proof.
  induction s1 as [|c s1 IH]; [done|].
  change (String c ((s1 +:+ s2) +:+ s3) = String c (s1 +:+ (s2 +:+ s3))).
  by rewrite IH.
Qed.

Lemma str_digits_app fuel n acc :
  str_digits fuel n acc = str_digits fuel n EmptyString +:+ acc.
Proof.
  revert n acc. induction fuel as [|fuel IH]; intros n acc; simpl; [done|].
  destruct (n / 10 =? 0)%N; [done|].
  rewrite (IH _ (String _ acc)), (IH _ (String _ EmptyString)).
  by rewrite string_app_assoc.
Qed.

Lemma int_digits_app a s1 s2 :
  int_digits a (s1 +:+ s2) = int_digits (int_digits a s1) s2.
Proof. revert a. induction s1 as [|c s1 IH]; intros a; simpl; [done|]. apply IH. Qed.

Lemma str_digits_decimal fuel n :
  str_forallb char_isdecimal (str_digits fuel n EmptyString) = true.
Proof.
  revert n. induction fuel as [|fuel IH]; intros n; simpl; [done|].
  assert (Hd : char_isdecimal (digit_char (n mod 10)) = true).
  { apply digit_char_decimal. apply N.mod_lt. lia. }
  destruct (n / 10 =? 0)%N; simpl; [by rewrite Hd|].
  rewrite str_digits_app, str_forallb_app, IH. simpl. by rewrite Hd.
Qed.

Lemma str_digits_not_empty fuel n :
  str_is_empty (str_digits (S fuel) n EmptyString) = false.
Proof.
  simpl. destruct (n / 10 =? 0)%N; [done|].
  rewrite str_digits_app. by destruct (str_digits fuel (n / 10) EmptyString).
Qed.

Lemma str_digits_value fuel n :
  (n < 2 ^ N.of_nat fuel)%N -> int_digits 0 (str_digits fuel n EmptyString) = n.
Proof.
  revert n. induction fuel as [|fuel IH]; intros n Hn.
  - simpl in *. lia.
  - rewrite Nat2N.inj_succ, N.pow_succ_r' in Hn.
    pose proof (N.div_mod n 10 ltac:(lia)) as Hdm.
    pose proof (N.mod_lt n 10 ltac:(lia)) as Hm.
    simpl. destruct (N.eqb_spec (n / 10) 0) as [Hz|Hnz]; simpl.
    + rewrite digit_value_char by done. lia.
    + rewrite str_digits_app, int_digits_app, IH; simpl.
      * rewrite digit_value_char by done. lia.
      * assert (n / 10 <= n / 2)%N by (apply N.div_le_compat_l; lia).
        assert (n / 2 < 2 ^ N.of_nat fuel)%N
          by (apply N.Div0.div_lt_upper_bound; lia).
        lia.
Qed.

Lemma str_fuel n : (n < 2 ^ N.of_nat (S (N.to_nat (N.log2 n))))%N.
Proof.
  rewrite Nat2N.inj_succ, N2Nat.id.
  destruct (N.eq_dec n 0%N) as [->|Hn]; [done|].
  apply N.log2_spec. lia.
Qed.

Lemma str_is_decimal n : is_decimal (str n) = true.
Proof.
  unfold is_decimal, str.
  by rewrite str_digits_not_empty, str_digits_decimal.
Qed.

Lemma string_app_cons c (s1 s2 : string) :
  String c s1 +:+ s2 = String c (s1 +:+ s2).
Proof. done. Qed.

Lemma string_app_length (s1 s2 : string) :
  String.length (s1 +:+ s2) = (String.length s1 + String.length s2)%nat.
Proof.
  induction s1 as [|c s1 IH]; [done|].
  rewrite string_app_cons. simpl. by rewrite IH.
Qed.

Lemma int_digits_acc acc s :
  int_digits acc s = (acc * 10 ^ N.of_nat (String.length s) + int_digits 0 s)%N.
Proof.
  revert acc. induction s as [|c s IH]; intros acc.
  - simpl. lia.
  - cbn [int_digits String.length]. rewrite Nat2N.inj_succ, N.pow_succ_r'.
    rewrite (IH (10 * acc + digit_value c)%N), (IH (10 * 0 + digit_value c)%N).
    lia.
Qed.

Lemma char_isdecimal_value c :
  char_isdecimal c = true -> (code c = 48 + digit_value c /\ digit_value c < 10)%N.
Proof.
  unfold char_isdecimal, digit_value. intros [H1 H2]%andb_true_iff.
  apply N.leb_le in H1, H2. lia.
Qed.

Lemma int_digits_bound s :
  str_forallb char_isdecimal s = true ->
  (int_digits 0 s < 10 ^ N.of_nat (String.length s))%N.
Proof.
  induction s as [|c s IH]; [simpl; lia|].
  intros [Hc Hs]%andb_true_iff. specialize (IH Hs).
  apply char_isdecimal_value in Hc as [_ Hc].
  cbn [int_digits String.length]. rewrite Nat2N.inj_succ, N.pow_succ_r'.
  rewrite int_digits_acc. nia.
Qed.

Lemma int_digits_str n : int_digits 0 (str n) = n.
Proof. unfold str. apply str_digits_value, str_fuel. Qed.

(** Reading back what was printed. *)
Lemma int_str n : within_limit (str n) = true -> int (str n) = Ok n.
Proof.
  intros Hn. rewrite int_decimal by (done || apply str_is_decimal).
  by rewrite int_digits_str.
Qed.

Lemma str_digits_head fuel n acc :
  n <> 0%N -> (n < 2 ^ N.of_nat fuel)%N ->
  exists c r, str_digits fuel n acc = String c r /\ c <> "0"%char.
Proof.
  revert n acc. induction fuel as [|fuel IH]; intros n acc Hn0 Hn.
  - simpl in Hn. lia.
  - rewrite Nat2N.inj_succ, N.pow_succ_r' in Hn.
    pose proof (N.div_mod n 10 ltac:(lia)) as Hdm.
    pose proof (N.mod_lt n 10 ltac:(lia)) as Hm.
    simpl. destruct (N.eqb_spec (n / 10) 0) as [Hz|Hnz].
    + eexists _, _. split; [done|]. intros Hc.
      apply (f_equal code) in Hc. rewrite digit_char_code in Hc by done.
      vm_compute (code "0") in Hc. lia.
    + apply IH; [done|].
      assert (n / 10 <= n / 2)%N by (apply N.div_le_compat_l; lia).
      assert (n / 2 < 2 ^ N.of_nat fuel)%N
        by (apply N.Div0.div_lt_upper_bound; lia).
      lia.
Qed.

Lemma str_no_leading_zero n : no_leading_zero (str n).
Proof.
  destruct (N.eq_dec n 0%N) as [->|Hn]; [by left|].
  right. apply str_digits_head; [done|apply str_fuel].
Qed.

Lemma int_digits_zeros k s : int_digits 0 (zeros k +:+ s) = int_digits 0 s.
Proof. induction k as [|k IH]; [done|]. exact IH. Qed.

Lemma is_decimal_zeros k s : is_decimal s = true -> is_decimal (zeros k +:+ s) = true.
Proof.
  unfold is_decimal. intros [H1 H2]%andb_true_iff.
  rewrite str_forallb_app, H2, andb_true_r.
  assert (str_forallb char_isdecimal (zeros k) = true) as ->
    by (induction k; [done|exact IHk]).
  rewrite andb_true_r. destruct k; [done|done].
Qed.

Lemma zeros_length k : String.length (zeros k) = k.
Proof. induction k as [|k IH]; [done|]. simpl. by rewrite IH. Qed.

Lemma within_limit_shorter s1 s2 :
  (String.length s1 <= String.length s2)%nat ->
  within_limit s2 = true -> within_limit s1 = true.
Proof. unfold within_limit. rewrite !N.leb_le. lia. Qed.

Lemma int_zeros k s :
  is_decimal s = true -> within_limit (zeros k +:+ s) = true ->
  int (zeros k +:+ s) = int s.
Proof.
  intros Hs Hk.
  assert (within_limit s = true).
  { revert Hk. apply within_limit_shorter. rewrite string_app_length. lia. }
  rewrite !int_decimal by auto using is_decimal_zeros.
  by rewrite int_digits_zeros.
Qed.

(** The limit counts the leading zeros: 4300 digits are read, 4301 are
    not. *)
Lemma int_at_the_limit :
  int (zeros 4300) = Ok 0%N /\ int (zeros 4301) = Raise ValueError.
Proof. split; by vm_compute. Qed.

(** A numeral without leading zeros is the shortest for its value. *)
Lemma str_length_le s :
  is_decimal s = true ->
  (String.length (str (int_digits 0 s)) <= String.length s)%nat.
Proof.
  intros [Hne Hs]%andb_true_iff.
  pose proof (int_digits_bound s Hs) as Hbound.
  set (n := int_digits 0 s) in *.
  destruct (str_no_leading_zero n) as [->|(c & r & Hstr & Hc)].
  - destruct s; [done|simpl; lia].
  - pose proof (str_is_decimal n) as [_ Hd]%andb_true_iff.
    pose proof (int_digits_str n) as Hval.
    rewrite Hstr in Hd, Hval |- *.
    simpl in Hd. apply andb_true_iff in Hd as [Hdc Hdr].
    apply char_isdecimal_value in Hdc as [Hcode Hlt].
    assert (digit_value c <> 0)%N.
    { intros H0. apply Hc. rewrite H0 in Hcode.
      rewrite <- (ascii_N_embedding c). unfold code in Hcode. by rewrite Hcode. }
    cbn [int_digits] in Hval. rewrite int_digits_acc in Hval.
    assert (10 ^ N.of_nat (String.length r) < 10 ^ N.of_nat (String.length s))%N
      as Hpow by nia.
    apply N.pow_lt_mono_r_iff in Hpow; [|lia]. simpl. lia.
Qed.

(** What [int] has read is printed within the limit. *)
Lemma int_ok_within_limit s n : int s = Ok n -> within_limit (str n) = true.
Proof.
  intros (Hs & Hlim & ->)%int_ok_inv.
  revert Hlim. apply within_limit_shorter. by apply str_length_le.
Qed.

(** ** The shape of versions *)

Lemma format_version_dotted m p : format_version m p = dotted (str m) (str p).
Proof. reflexivity. Qed.

Lemma split_dotted a b :
  no_char "." a = true -> no_char "." b = true ->
  split "." (dotted a b) = ["3"; a; b].
Proof.
  intros Ha Hb. unfold dotted.
  change (String "3" (String "." (a +:+ String "." b)))
    with ("3" +:+ String "." (a +:+ String "." b)).
  rewrite split_app_sep by done. rewrite split_app_sep by done.
  by rewrite split_no_char.
Qed.

Lemma minor_patch_dotted a b :
  isdigit a = true -> isdigit b = true ->
  minor_patch (dotted a b) =
    let* minor := int a in let* patch := int b in Ok (minor, patch).
Proof.
  intros Ha Hb. unfold minor_patch.
  rewrite split_dotted by auto using isdigit_no_dot. done.
Qed.

Lemma is_valid_version_dotted a b :
  isdigit a = true -> isdigit b = true -> is_valid_version (dotted a b) = true.
Proof.
  intros Ha Hb. unfold is_valid_version.
  rewrite split_dotted by auto using isdigit_no_dot. simpl.
  by rewrite Ha, Hb.
Qed.

Lemma startswith_dotted a b : startswith (dotted a b) "3." = true.
Proof. reflexivity. Qed.

(** Reading back a version that was assembled. *)
Lemma minor_patch_format m p :
  within_limit (str m) = true -> within_limit (str p) = true ->
  minor_patch (format_version m p) = Ok (m, p).
Proof.
  intros Hm Hp.
  rewrite format_version_dotted, minor_patch_dotted
    by auto using is_decimal_isdigit, str_is_decimal.
  by rewrite !int_str.
Qed.

(** The integers line 116 has read are printed within the limit. *)
Lemma minor_patch_within_limit v m p :
  minor_patch v = Ok (m, p) ->
  within_limit (str m) = true /\ within_limit (str p) = true.
Proof.
  unfold minor_patch.
  destruct (index (split "." v) 1) as [p1|]; [|done]. simpl.
  destruct (int p1) as [m'|] eqn:H1; [|done]. simpl.
  destruct (index (split "." v) 2) as [p2|]; [|done]. simpl.
  destruct (int p2) as [p'|] eqn:H2; [|done]. simpl.
  intros [= <- <-]. eauto using int_ok_within_limit.
Qed.

(** What line 115 keeps is a text [3.a.b] with [a] and [b] digits. *)
Lemma valid_version_inv v :
  startswith v "3." = true -> is_valid_version v = true ->
  exists a b, v = dotted a b /\ isdigit a = true /\ isdigit b = true.
Proof.
  intros Hs Hv. unfold is_valid_version in Hv.
  apply andb_true_iff in Hv as [Hlen Hall].
  pose proof (join_split "." v) as Hj.
  destruct (split "." v) as [|p0 [|p1 [|p2 [|]]]]; try done.
  simpl in Hall.
  apply andb_true_iff in Hall as [H0 Hall].
  apply andb_true_iff in Hall as [H1 Hall].
  apply andb_true_iff in Hall as [H2 _].
  exists p1, p2. split; [|done]. subst v.
  change (join "." [p0; p1; p2]) with (p0 +:+ String "." (p1 +:+ String "." p2)).
  change (join "." [p0; p1; p2]) with (p0 +:+ String "." (p1 +:+ String "." p2)) in Hs.
  destruct p0 as [|c0 [|c1 p0]]; [done| |].
  - simpl in Hs. rewrite andb_true_r in Hs.
    by apply Ascii.eqb_eq in Hs as ->.
  - exfalso. simpl in Hs.
    apply andb_true_iff in Hs as [_ Hs].
    apply andb_true_iff in Hs as [Hs _].
    apply Ascii.eqb_eq in Hs as ->.
    apply isdigit_no_dot in H0. unfold no_char in H0. simpl in H0.
    by rewrite andb_false_r in H0.
Qed.

Lemma minor_patch_valid v :
  startswith v "3." = true -> is_valid_version v = true ->
  (exists mp, minor_patch v = Ok mp) \/ minor_patch v = Raise ValueError.
Proof.
  intros Hs Hv. destruct (valid_version_inv v Hs Hv) as (a & b & -> & Ha & Hb).
  rewrite minor_patch_dotted by done.
  destruct (int_cases a) as [[m ->]| ->]; [|by right].
  destruct (int_cases b) as [[p ->]| ->]; [|by right].
  left. by eexists.
Qed.

(** ** Sorting *)

Lemma pair_leb_spec (a b : N * N) :
  pair_leb a b = true <-> (a.1 < b.1 \/ a.1 = b.1 /\ a.2 <= b.2)%N.
Proof.
  unfold pair_leb.
  rewrite orb_true_iff, andb_true_iff, N.ltb_lt, N.eqb_eq, N.leb_le. done.
Qed.

#[global] Instance pair_ge_total : Total pair_ge.
Proof. intros a b. unfold pair_ge. rewrite !pair_leb_spec. lia. Qed.

#[global] Instance pair_ge_trans : Transitive pair_ge.
Proof. intros a b c. unfold pair_ge. rewrite !pair_leb_spec. lia. Qed.

#[global] Instance pair_ge_antisymm : AntiSymm (=) pair_ge.
Proof.
  intros [a1 a2] [b1 b2]. unfold pair_ge. rewrite !pair_leb_spec. simpl.
  intros H1 H2. f_equal; lia.
Qed.

#[global] Instance str_ge_total : Total str_ge.
Proof. intros a b. unfold str_ge. destruct (total String.le a b); auto. Qed.

#[global] Instance str_ge_trans : Transitive str_ge.
Proof. intros a b c. unfold str_ge. intros H1 H2. by etrans. Qed.

#[global] Instance str_ge_antisymm : AntiSymm (=) str_ge.
Proof. intros a b. unfold str_ge. intros H1 H2. by apply (anti_symm String.le). Qed.

Lemma sort_reverse_perm l : sort_reverse l ≡ₚ l.
Proof. apply merge_sort_Permutation. Qed.

Lemma sort_reverse_sorted l : StronglySorted pair_ge (sort_reverse l).
Proof. apply StronglySorted_merge_sort; apply _. Qed.

Lemma sorted_reverse_perm l : sorted_reverse l ≡ₚ l.
Proof. apply merge_sort_Permutation. Qed.

Lemma sorted_reverse_sorted l : StronglySorted str_ge (sorted_reverse l).
Proof. apply StronglySorted_merge_sort; apply _. Qed.

(** A list has one arrangement in order: this is why the algorithm of the
    sort, and the order in which its input comes, do not show in its
    outcome. *)
Lemma sorted_perm_unique {A} (R : relation A) `{!AntiSymm (=) R} (l1 l2 : list A) :
  StronglySorted R l1 -> StronglySorted R l2 -> l1 ≡ₚ l2 -> l1 = l2.
Proof.
  intros H1. revert l2. induction H1 as [|x l1 Hs1 IH Hx]; intros l2 H2 Hp.
  - by apply Permutation_nil_l in Hp.
  - destruct H2 as [|y l2 Hs2 Hy].
    + by apply Permutation_nil_r in Hp.
    + assert (x = y) as ->.
      { assert (Hxin : x ∈ y :: l2) by (rewrite <- Hp; left).
        assert (Hyin : y ∈ x :: l1) by (rewrite Hp; left).
        apply elem_of_cons in Hxin as [->|Hxin]; [done|].
        apply elem_of_cons in Hyin as [->|Hyin]; [done|].
        rewrite Forall_forall in Hx, Hy.
        apply (anti_symm R); auto. }
      f_equal. apply IH; [done|]. by apply (inj (cons y)).
Qed.

Lemma sorted_reverse_of_perm l1 l2 :
  l1 ≡ₚ l2 -> sorted_reverse l1 = sorted_reverse l2.
Proof.
  intros Hp. apply (sorted_perm_unique str_ge);
    [apply sorted_reverse_sorted..|].
  by rewrite !sorted_reverse_perm.
Qed.

(** ** [max] *)

Lemma foldl_max_in x l : foldl N.max x l ∈ x :: l.
Proof.
  revert x. induction l as [|y l IH]; intros x; simpl; [by left|].
  specialize (IH (N.max x y)).
  apply elem_of_cons in IH as [->|IH]; [|by do 2 right].
  destruct (N.max_spec x y) as [[_ ->]|[_ ->]]; [right|]; by left.
Qed.

Lemma foldl_max_ge x l y : y ∈ x :: l -> (y <= foldl N.max x l)%N.
Proof.
  revert x y. induction l as [|z l IH]; intros x y; simpl.
  - intros ->%list_elem_of_singleton. lia.
  - intros Hy. assert (N.max x z <= foldl N.max (N.max x z) l)%N as Hm
      by (apply IH; left).
    apply elem_of_cons in Hy as [->|Hy]; [lia|].
    apply elem_of_cons in Hy as [->|Hy]; [lia|].
    apply IH. by right.
Qed.

Lemma py_max_ok l : l <> [] ->
  exists M, py_max l = Ok M /\ M ∈ l /\ forall x, x ∈ l -> (x <= M)%N.
Proof.
  destruct l as [|x l]; [done|]. intros _. exists (foldl N.max x l).
  split; [done|]. split; [apply foldl_max_in|]. intros y. apply foldl_max_ge.
Qed.

Lemma py_max_ext l1 l2 :
  (forall x, x ∈ l1 <-> x ∈ l2) -> py_max l1 = py_max l2.
Proof.
  intros Hiff. destruct l1 as [|x1 l1], l2 as [|x2 l2].
  - done.
  - exfalso. apply (not_elem_of_nil x2), Hiff. left.
  - exfalso. apply (not_elem_of_nil x1), Hiff. left.
  - destruct (py_max_ok (x1 :: l1)) as (M1 & -> & Hin1 & Hge1); [done|].
    destruct (py_max_ok (x2 :: l2)) as (M2 & -> & Hin2 & Hge2); [done|].
    f_equal. apply N.le_antisymm.
    + apply Hge2, Hiff, Hin1.
    + apply Hge1, Hiff, Hin2.
Qed.

Lemma elem_of_patches_of p minor l : p ∈ patches_of minor l <-> (minor, p) ∈ l.
Proof.
  unfold patches_of. rewrite list_elem_of_fmap. split.
  - intros ([m p'] & -> & Hin). apply list_elem_of_filter in Hin as [Hm Hin].
    simpl in *. by subst.
  - intros Hin. exists (minor, p). split; [done|].
    by apply list_elem_of_filter.
Qed.

(** ** The loop that collects the minors *)

Lemma elem_of_minors_of m l : m ∈ minors_of l <-> exists p, (m, p) ∈ l.
Proof.
  unfold minors_of. rewrite elem_of_list_to_set, list_elem_of_fmap. split.
  - intros ([m' p] & -> & Hin). by exists p.
  - intros (p & Hin). by exists (m, p).
Qed.

Lemma minors_of_cons m p l : minors_of ((m, p) :: l) = {[m]} ∪ minors_of l.
Proof. done. Qed.

Lemma minors_of_ext l1 l2 :
  (forall x, x ∈ l1 <-> x ∈ l2) -> minors_of l1 = minors_of l2.
Proof.
  intros Hiff. apply set_eq. intros m. rewrite !elem_of_minors_of.
  split; intros (p & Hp); exists p; by apply Hiff.
Qed.

Lemma minors_of_sort_reverse l : minors_of (sort_reverse l) = minors_of l.
Proof. apply minors_of_ext. intros x. by rewrite sort_reverse_perm. Qed.

Lemma size_add_le (m : N) (acc : gset N) :
  (size acc <= size ({[m]} ∪ acc) <= S (size acc))%nat.
Proof.
  split; [apply subseteq_size; set_solver|].
  destruct (decide (m ∈ acc)) as [Hin|Hnin].
  - replace ({[m]} ∪ acc) with acc by set_solver. lia.
  - rewrite size_union by set_solver. rewrite size_singleton. lia.
Qed.

(** The loop only ever adds minors of the list. *)
Lemma collect_minors_subseteq l count acc :
  acc ⊆ collect_minors l count acc /\
  collect_minors l count acc ⊆ acc ∪ minors_of l.
Proof.
  revert acc. induction l as [|[m p] l IH]; intros acc; simpl.
  - set_solver.
  - rewrite minors_of_cons.
    destruct (Z.of_nat (size ({[m]} ∪ acc)) =? count)%Z; [set_solver|].
    destruct (IH ({[m]} ∪ acc)) as [IH1 IH2]. set_solver.
Qed.

(** On a list in descending order, and for a positive [count], the loop
    stops with the [count] largest minors, or with all of them when there
    are fewer. *)
Lemma collect_minors_sorted l count acc :
  StronglySorted pair_ge l ->
  (Z.of_nat (size acc) < count)%Z ->
  (forall a x, a ∈ acc -> x ∈ l -> (x.1 <= a)%N) ->
  let T := collect_minors l count acc in
  size T = Nat.min (Z.to_nat count) (size (acc ∪ minors_of l)) /\
  forall a b, a ∈ T -> b ∈ acc ∪ minors_of l -> b ∉ T -> (b < a)%N.
Proof.
  intros Hsorted. revert acc.
  induction Hsorted as [|[m p] l Hs IH Hhd]; intros acc Hsize Hacc; simpl.
  - replace (acc ∪ minors_of []) with acc by set_solver.
    split; [lia|]. intros a b _ Hb Hnb. done.
  - rewrite minors_of_cons.
    rewrite Forall_forall in Hhd.
    assert (Hle : forall x, x ∈ l -> (x.1 <= m)%N).
    { intros x Hx. specialize (Hhd x Hx). unfold pair_ge in Hhd.
      apply pair_leb_spec in Hhd. simpl in Hhd. lia. }
    pose proof (size_add_le m acc) as Hadd.
    destruct (Z.eqb_spec (Z.of_nat (size ({[m]} ∪ acc))) count) as [Heq|Hne].
    + split.
      * assert (size ({[m]} ∪ acc) <= size (acc ∪ ({[m]} ∪ minors_of l)))%nat
          by (apply subseteq_size; set_solver).
        lia.
      * intros a b Ha Hb Hnb.
        assert (Hbl : b ∈ minors_of l) by set_solver.
        apply elem_of_minors_of in Hbl as (q & Hq).
        assert (b <= a)%N.
        { apply elem_of_union in Ha as [->%elem_of_singleton|Ha].
          - apply (Hle (b, q) Hq).
          - apply (Hacc a (b, q) Ha). by right. }
        assert (b <> a) by (intros ->; done).
        lia.
    + replace (acc ∪ ({[m]} ∪ minors_of l)) with (({[m]} ∪ acc) ∪ minors_of l)
        by set_solver.
      apply IH; [lia|].
      intros a x [->%elem_of_singleton|Ha]%elem_of_union Hx; [by apply Hle|].
      apply Hacc; [done|by right].
Qed.

(** The side conditions of [collect_minors_sorted] at the start of the
    loop, on the sorted list and with the empty set. *)
Ltac from_empty_set :=
  first [ apply sort_reverse_sorted
        | rewrite size_empty; lia
        | intros ? ? ?; set_solver ].

(** A set with these two properties is the set of the largest elements:
    there is only one. *)
Lemma largest_unique (S T1 T2 : gset N) :
  T1 ⊆ S -> T2 ⊆ S -> size T1 = size T2 ->
  (forall a b, a ∈ T1 -> b ∈ S -> b ∉ T1 -> (b < a)%N) ->
  (forall a b, a ∈ T2 -> b ∈ S -> b ∉ T2 -> (b < a)%N) ->
  T1 = T2.
Proof.
  intros Hs1 Hs2 Hsize H1 H2.
  assert (Hsub : T1 ⊆ T2).
  { intros a Ha. destruct (decide (a ∈ T2)) as [|Hna]; [done|exfalso].
    assert (Hsub : T2 ⊆ T1).
    { intros b Hb. destruct (decide (b ∈ T1)) as [|Hnb]; [done|exfalso].
      assert (a < b)%N by (apply H2; auto).
      assert (b < a)%N by (apply H1; auto).
      lia. }
    apply Hna. apply (set_subseteq_size_eq T2 T1) in Hsub; [|lia].
    by rewrite Hsub. }
  apply set_subseteq_size_eq; [done|lia].
Qed.

(** The set the loop leaves depends on the pairs only as a set. *)
Lemma collect_minors_ext l1 l2 count :
  (0 < count)%Z -> (forall x, x ∈ l1 <-> x ∈ l2) ->
  collect_minors (sort_reverse l1) count ∅ =
  collect_minors (sort_reverse l2) count ∅.
Proof.
  intros Hcount Hiff.
  assert (Hm : minors_of (sort_reverse l1) = minors_of (sort_reverse l2)).
  { rewrite !minors_of_sort_reverse. by apply minors_of_ext. }
  destruct (collect_minors_sorted (sort_reverse l1) count ∅) as [Hs1 Hgt1];
    [from_empty_set..|].
  destruct (collect_minors_sorted (sort_reverse l2) count ∅) as [Hs2 Hgt2];
    [from_empty_set..|].
  pose proof (collect_minors_subseteq (sort_reverse l1) count ∅) as [_ Hsub1].
  pose proof (collect_minors_subseteq (sort_reverse l2) count ∅) as [_ Hsub2].
  rewrite <- Hm in *.
  by apply (largest_unique (∅ ∪ minors_of (sort_reverse l1))); [..|congruence| |].
Qed.

(** ** The selection *)

Lemma highest_patch_spec l m :
  m ∈ minors_of l ->
  py_max (patches_of m l) = Ok (highest_patch l m) /\
  (m, highest_patch l m) ∈ l /\
  forall p, (m, p) ∈ l -> (p <= highest_patch l m)%N.
Proof.
  intros (p & Hp)%elem_of_minors_of.
  destruct (py_max_ok (patches_of m l)) as (M & HM & Hin & Hge).
  { intros Hnil. apply elem_of_patches_of in Hp. rewrite Hnil in Hp.
    by apply not_elem_of_nil in Hp. }
  unfold highest_patch. rewrite HM. split; [done|]. split.
  - by apply elem_of_patches_of.
  - intros q Hq. by apply Hge, elem_of_patches_of.
Qed.

Lemma highest_patch_ext l1 l2 m :
  (forall x, x ∈ l1 <-> x ∈ l2) -> highest_patch l1 m = highest_patch l2 m.
Proof.
  intros Hiff. unfold highest_patch.
  rewrite (py_max_ext (patches_of m l1) (patches_of m l2)); [done|].
  intros p. rewrite !elem_of_patches_of. apply Hiff.
Qed.

Lemma select_version_ok l m :
  m ∈ minors_of l ->
  select_version l m = Ok (format_version m (highest_patch l m)).
Proof.
  intros Hm. unfold select_version.
  by destruct (highest_patch_spec l m Hm) as (-> & _).
Qed.

Lemma latest_set_subseteq pairs count : latest_set pairs count ⊆ minors_of pairs.
Proof.
  unfold latest_set.
  destruct (collect_minors_subseteq (sort_reverse pairs) count ∅) as [_ H].
  rewrite minors_of_sort_reverse in H. set_solver.
Qed.

(** Whatever order the set is visited in, the loop of lines 126-128 raises
    nothing and the last line returns the same list. *)
Lemma selected_versions_any_order pairs count (order : list N) :
  order ≡ₚ elements (latest_set pairs count) ->
  (let* selected_versions :=
     traverse (select_version (sort_reverse pairs)) order in
   Ok (sorted_reverse selected_versions))
  = Ok (sorted_reverse (map format_pair (selection pairs count))).
Proof.
  intros Hperm.
  rewrite (traverse_ok_map _
    (fun m => format_version m (highest_patch pairs m))).
  - simpl. f_equal. apply sorted_reverse_of_perm.
    unfold selection. rewrite map_map. simpl. by rewrite Hperm.
  - intros m Hm. rewrite Hperm in Hm. apply elem_of_elements in Hm.
    apply latest_set_subseteq in Hm.
    rewrite select_version_ok.
    + f_equal. f_equal. apply highest_patch_ext.
      intros x. by rewrite sort_reverse_perm.
    + by rewrite minors_of_sort_reverse.
Qed.

Lemma latest_of_valid_ok vv count pairs :
  traverse minor_patch vv = Ok pairs ->
  latest_of_valid vv count =
    Ok (sorted_reverse (map format_pair (selection pairs count))).
Proof.
  intros H. unfold latest_of_valid. rewrite H. simpl.
  by apply selected_versions_any_order.
Qed.

Lemma latest_of_valid_raise vv count e :
  traverse minor_patch vv = Raise e -> latest_of_valid vv count = Raise e.
Proof. intros H. unfold latest_of_valid. by rewrite H. Qed.

Lemma elem_of_selection pairs count m p :
  (m, p) ∈ selection pairs count <->
  m ∈ latest_set pairs count /\ p = highest_patch pairs m.
Proof.
  unfold selection. rewrite list_elem_of_fmap. split.
  - intros (m' & [= -> ->] & Hin). by apply elem_of_elements in Hin.
  - intros [Hin ->]. exists m. by rewrite elem_of_elements.
Qed.

Lemma selection_minors pairs count :
  (selection pairs count).*1 = elements (latest_set pairs count).
Proof.
  unfold selection. rewrite <- list_fmap_compose.
  change (fst ∘ _) with (@id N). apply list_fmap_id.
Qed.

Lemma selection_subseteq pairs count mp :
  mp ∈ selection pairs count -> mp ∈ pairs.
Proof.
  destruct mp as [m p]. intros [Hm ->]%elem_of_selection.
  apply latest_set_subseteq in Hm.
  by destruct (highest_patch_spec pairs m Hm) as (_ & Hin & _).
Qed.

(** The pairs that line 116 has read are printed within the limit. *)
Lemma traverse_minor_patch_within_limit vv pairs mp :
  traverse minor_patch vv = Ok pairs -> mp ∈ pairs ->
  within_limit (str mp.1) = true /\ within_limit (str mp.2) = true.
Proof.
  intros Hpairs Hin.
  apply (traverse_ok_elem_of _ _ _ _ Hpairs) in Hin as (v & _ & Hv).
  destruct mp as [m p]. by apply (minor_patch_within_limit v).
Qed.

(** The returned list read back with the program's own parser. *)
Lemma traverse_minor_patch_formatted versions sel0 :
  (forall mp, mp ∈ sel0 ->
     within_limit (str mp.1) = true /\ within_limit (str mp.2) = true) ->
  versions ≡ₚ map format_pair sel0 ->
  exists sel, traverse minor_patch versions = Ok sel /\ sel ≡ₚ sel0 /\
    versions = map format_pair sel.
Proof.
  intros Hlim Hperm.
  set (g := fun s => match minor_patch s with Ok mp => mp | Raise _ => (0, 0)%N end).
  assert (Hf : forall mp, mp ∈ sel0 -> minor_patch (format_pair mp) = Ok mp).
  { intros [m p] [Hm Hp]%Hlim. by apply minor_patch_format. }
  assert (Hg : forall mp, mp ∈ sel0 -> g (format_pair mp) = mp).
  { intros mp Hmp. unfold g. by rewrite Hf. }
  assert (Hall : forall s, s ∈ versions ->
            exists mp, mp ∈ sel0 /\ s = format_pair mp).
  { intros s Hs. rewrite Hperm in Hs.
    apply list_elem_of_fmap in Hs as (mp & -> & Hmp). by exists mp. }
  exists (map g versions). split; [|split].
  - apply traverse_ok_map. intros s (mp & Hmp & ->)%Hall.
    rewrite Hg by done. by apply Hf.
  - rewrite Hperm, map_map. erewrite map_ext_in; [by rewrite map_id|].
    intros mp Hmp%list_elem_of_In. by apply Hg.
  - rewrite map_map. symmetry. erewrite map_ext_in; [apply map_id|].
    intros s Hs%list_elem_of_In. apply Hall in Hs as (mp & Hmp & ->).
    by rewrite Hg.
Qed.

(** ** The lines the program keeps *)

Lemma elem_of_parse_asdf_output output v :
  v ∈ parse_asdf_output output <->
  exists line, line ∈ split newline output /\
    is_version_line line = true /\ strip line = v.
Proof.
  unfold parse_asdf_output. rewrite list_elem_of_fmap. split.
  - intros (line & -> & [Hv Hin]%list_elem_of_filter). by exists line.
  - intros (line & Hin & Hv & <-). exists line. split; [done|].
    by apply list_elem_of_filter.
Qed.

Lemma elem_of_valid_versions output v :
  v ∈ valid_versions output <->
  startswith v "3." && is_valid_version v = true /\
  exists line, line ∈ split newline output /\ strip line = v.
Proof.
  unfold valid_versions. rewrite list_elem_of_filter, elem_of_parse_asdf_output.
  split.
  - intros (Hv & line & Hin & _ & Hs). split; [done|]. by exists line.
  - intros (Hv & line & Hin & Hs). split; [done|]. exists line.
    split; [done|]. split; [|done].
    unfold is_version_line. rewrite Hs.
    apply andb_true_iff in Hv as [Hv _].
    destruct v as [|c v]; [done|]. simpl in Hv.
    apply andb_true_iff in Hv as [Hc _]. by apply Ascii.eqb_eq in Hc as ->.
Qed.

Lemma valid_versions_ext output1 output2 :
  (forall line, line ∈ split newline output1 <-> line ∈ split newline output2) ->
  forall v, v ∈ valid_versions output1 <-> v ∈ valid_versions output2.
Proof.
  intros Hiff v. rewrite !elem_of_valid_versions.
  split; intros (Hv & line & Hin & Hs); (split; [done|]); exists line;
    (split; [by apply Hiff|done]).
Qed.

Lemma valid_versions_minor_patch output v :
  v ∈ valid_versions output ->
  (exists mp, minor_patch v = Ok mp) \/ minor_patch v = Raise ValueError.
Proof.
  intros [Hv _]%elem_of_valid_versions.
  apply andb_true_iff in Hv as [Hs Hv]. by apply minor_patch_valid.
Qed.

(** Line 116 on two lists with the same elements: both raise, or both
    return lists with the same elements. *)
Lemma traverse_minor_patch_ext l1 l2 :
  (forall v, v ∈ l1 <-> v ∈ l2) ->
  (forall v, v ∈ l1 ->
     (exists mp, minor_patch v = Ok mp) \/ minor_patch v = Raise ValueError) ->
  (exists p1 p2, traverse minor_patch l1 = Ok p1 /\
     traverse minor_patch l2 = Ok p2 /\ forall x, x ∈ p1 <-> x ∈ p2) \/
  (traverse minor_patch l1 = Raise ValueError /\
   traverse minor_patch l2 = Raise ValueError).
Proof.
  intros Hiff Hcases.
  assert (Honly : forall l : list string, (forall v, v ∈ l -> v ∈ l1) ->
            forall y e', y ∈ l -> minor_patch y = Raise e' -> e' = ValueError).
  { intros l Hl y e' Hy Hr. destruct (Hcases y (Hl y Hy)) as [[mp H]|H]; congruence. }
  destruct (traverse minor_patch l1) as [p1|e] eqn:H1.
  - left. pose proof (traverse_ok_inv _ _ _ H1) as Hall.
    assert (Hok : forall v, v ∈ l1 -> exists mp, minor_patch v = Ok mp).
    { intros v [i Hi]%list_elem_of_lookup.
      destruct (Forall2_lookup_l _ _ _ _ _ Hall Hi) as (y & _ & Hy). eauto. }
    rewrite (traverse_ok_unwrap _ (0, 0)%N l1) in H1 by done.
    injection H1 as <-.
    exists (map (unwrap minor_patch (0, 0)%N) l1),
           (map (unwrap minor_patch (0, 0)%N) l2).
    split; [done|]. split.
    + apply traverse_ok_unwrap. intros v Hv. apply Hok. by apply Hiff.
    + intros x. rewrite !list_elem_of_fmap.
      split; intros (v & -> & Hv); exists v; (split; [done|]); by apply Hiff.
  - right. apply traverse_raise in H1 as (x & Hx & Hfx).
    assert (e = ValueError) as -> by (eapply (Honly l1); eauto).
    split; [done|].
    apply (traverse_raise_intro _ _ _ x); [by apply Hiff|done|].
    apply Honly. intros v. apply Hiff.
Qed.

Lemma selection_ext p1 p2 count :
  (0 < count)%Z -> (forall x, x ∈ p1 <-> x ∈ p2) ->
  selection p1 count = selection p2 count.
Proof.
  intros Hcount Hiff. unfold selection, latest_set.
  rewrite (collect_minors_ext p1 p2) by done.
  apply map_ext. intros m. f_equal. by apply highest_patch_ext.
Qed.

(** The outcome depends on the text only through the set of its lines. *)
Lemma get_latest_asdf_versions_ext output1 output2 count :
  (0 < count)%Z ->
  (forall line, line ∈ split newline output1 <-> line ∈ split newline output2) ->
  get_latest_asdf_versions output1 count = get_latest_asdf_versions output2 count.
Proof.
  intros Hcount Hiff. unfold get_latest_asdf_versions.
  destruct (traverse_minor_patch_ext (valid_versions output1) (valid_versions output2))
    as [(p1 & p2 & H1 & H2 & Hp)|[H1 H2]].
  - by apply valid_versions_ext.
  - apply valid_versions_minor_patch.
  - rewrite (latest_of_valid_ok _ _ _ H1), (latest_of_valid_ok _ _ _ H2).
    by rewrite (selection_ext p1 p2).
  - by rewrite (latest_of_valid_raise _ _ _ H1), (latest_of_valid_raise _ _ _ H2).
Qed.

(** The program returns, or raises [ValueError] at line 116. *)
Lemma get_latest_asdf_versions_cases output count :
  (exists pairs, traverse minor_patch (valid_versions output) = Ok pairs /\
     get_latest_asdf_versions output count =
       Ok (sorted_reverse (map format_pair (selection pairs count)))) \/
  (get_latest_asdf_versions output count = Raise ValueError /\
   exists v, v ∈ valid_versions output /\ minor_patch v = Raise ValueError).
Proof.
  unfold get_latest_asdf_versions.
  destruct (traverse minor_patch (valid_versions output)) as [pairs|e] eqn:H.
  - left. exists pairs. split; [done|]. by apply latest_of_valid_ok.
  - right. pose proof H as Hr. apply traverse_raise in H as (v & Hv & Hfv).
    destruct (valid_versions_minor_patch output v Hv) as [[mp Hmp]|Hmp];
      [congruence|].
    assert (e = ValueError) as -> by congruence.
    split; [by apply latest_of_valid_raise|]. by exists v.
Qed.

(** ** The pattern of a version *)

Lemma skip_decimals_app a r :
  str_forallb char_isdecimal a = true ->
  skip_decimals (a +:+ r) = skip_decimals r.
Proof.
  induction a as [|c a IH]; [done|].
  intros [Hc Ha]%andb_true_iff.
  change (String c a +:+ r) with (String c (a +:+ r)). simpl.
  rewrite Hc. by apply IH.
Qed.

Lemma skip_decimals_all a :
  str_forallb char_isdecimal a = true -> skip_decimals a = EmptyString.
Proof.
  induction a as [|c a IH]; [done|]. simpl.
  intros [Hc Ha]%andb_true_iff. rewrite Hc. by apply IH.
Qed.

Lemma is_decimal_begins a : is_decimal a = true -> begins_with_decimal a = true.
Proof.
  unfold is_decimal. destruct a as [|c a]; [done|]. simpl.
  by intros [Hc _]%andb_true_iff.
Qed.

Lemma matches_version_pattern_dotted a b :
  is_decimal a = true -> is_decimal b = true ->
  matches_version_pattern (dotted a b) = true.
Proof.
  intros Ha Hb. unfold dotted, matches_version_pattern.
  pose proof (is_decimal_begins a Ha) as Hba.
  pose proof (is_decimal_begins b Hb) as Hbb.
  unfold is_decimal in Ha, Hb.
  apply andb_true_iff in Ha as [_ Ha]. apply andb_true_iff in Hb as [_ Hb].
  rewrite skip_decimals_app by done.
  assert (begins_with_decimal (a +:+ String "." b) = true) as ->
    by (by destruct a).
  simpl. by rewrite Hbb, skip_decimals_all.
Qed.

Lemma matches_version_pattern_format mp :
  matches_version_pattern (format_pair mp) = true.
Proof.
  unfold format_pair. rewrite format_version_dotted.
  apply matches_version_pattern_dotted; apply str_is_decimal.
Qed.

(** ** What the program returns *)

Lemma latest_set_size pairs count :
  (0 < count)%Z ->
  size (latest_set pairs count) =
    Nat.min (Z.to_nat count) (size (minors_of pairs)).
Proof.
  intros Hcount. unfold latest_set.
  destruct (collect_minors_sorted (sort_reverse pairs) count ∅) as [-> _];
    [from_empty_set..|].
  by rewrite (left_id_L ∅ (∪)), minors_of_sort_reverse.
Qed.

Lemma latest_set_largest pairs count a b :
  (0 < count)%Z ->
  a ∈ latest_set pairs count -> b ∈ minors_of pairs ->
  b ∉ latest_set pairs count -> (b < a)%N.
Proof.
  intros Hcount Ha Hb Hnb. unfold latest_set in *.
  destruct (collect_minors_sorted (sort_reverse pairs) count ∅) as [_ H];
    [from_empty_set..|].
  apply H; [done| |done].
  by rewrite (left_id_L ∅ (∪)), minors_of_sort_reverse.
Qed.

(** What the program returns, when it returns. *)
Lemma get_latest_asdf_versions_ok_inv output count versions :
  get_latest_asdf_versions output count = Ok versions ->
  exists pairs sel,
    traverse minor_patch (valid_versions output) = Ok pairs /\
    traverse minor_patch versions = Ok sel /\
    sel ≡ₚ selection pairs count /\
    versions = map format_pair sel.
Proof.
  intros Hok.
  destruct (get_latest_asdf_versions_cases output count)
    as [(pairs & Hpairs & Heq)|(Hraise & _)]; [|congruence].
  rewrite Heq in Hok. injection Hok as <-.
  destruct (traverse_minor_patch_formatted
              (sorted_reverse (map format_pair (selection pairs count)))
              (selection pairs count)) as (sel & Hsel & Hperm & Hmap).
  { intros mp Hmp%selection_subseteq.
    by apply (traverse_minor_patch_within_limit _ _ _ Hpairs). }
  { apply sorted_reverse_perm. }
  by exists pairs, sel.
Qed.

(** * The claims of the specification *)

(** ** [parse_asdf_output] *)

Lemma is_version_line_spec line :
  is_version_line line = true <->
  strip line <> EmptyString /\ begins_with_digit (strip line) = true.
Proof.
  unfold is_version_line, begins_with_digit.
  destruct (strip line) as [|c s].
  - split; [done|]. by intros [].
  - split; [done|]. by intros [].
Qed.

Lemma strip_filter_commute (lines : list string) :
  map strip (filter (fun line => is_version_line line = true) lines) =
  filter (fun line => line <> EmptyString /\ begins_with_digit line = true)
         (map strip lines).
Proof.
  induction lines as [|line lines IH]; [done|].
  rewrite map_cons, !filter_cons.
  destruct (decide (is_version_line line = true)) as [Hv|Hv];
    destruct (decide (strip line <> "" /\ begins_with_digit (strip line) = true))
      as [Hs|Hs]; rewrite is_version_line_spec in Hv; try done.
  by rewrite map_cons, IH.
Qed.

(** C8. [parse_asdf_output] returns the trimmed lines of the text that are
    not empty and begin with a digit, in the order of the text: it is the
    list the specification describes, a sublist of the trimmed lines; every
    entry is trimmed; and a trimmed line that begins with a digit is kept
    whatever follows the digit. *)
Theorem parse_asdf_output_candidate_lines (text : string) :
  parse_asdf_output text = extractCandidateLines text /\
  sublist (parse_asdf_output text) (map strip (split newline text)) /\
  Forall trimmed (parse_asdf_output text) /\
  forall c rest line,
    line ∈ split newline text -> strip line = String c rest ->
    char_isdigit c = true -> String c rest ∈ parse_asdf_output text.
Proof.
  assert (Heq : parse_asdf_output text = extractCandidateLines text)
    by apply strip_filter_commute.
  split; [done|]. split; [|split].
  - rewrite Heq. apply sublist_filter.
  - apply Forall_forall. intros v (line & _ & _ & <-)%elem_of_parse_asdf_output.
    apply strip_trimmed.
  - intros c rest line Hin Hs Hc. apply elem_of_parse_asdf_output.
    exists line. split; [done|]. split; [|done].
    unfold is_version_line. by rewrite Hs.
Qed.

(** ** [is_valid_version] *)

Lemma isWellFormedVersion_valid line :
  isWellFormedVersion line = true -> is_valid_version line = true.
Proof.
  unfold isWellFormedVersion, is_valid_version.
  destruct (split "." line) as [|a [|b [|c [|]]]]; try done.
  intros [[Ha Hb]%andb_true_iff Hc]%andb_true_iff. simpl.
  by rewrite !is_decimal_isdigit.
Qed.

(** The two agree on a line none of whose digits is a superscript. *)
Lemma is_valid_version_decimal line :
  str_forallb (fun c => implb (char_isdigit c) (char_isdecimal c)) line = true ->
  is_valid_version line = isWellFormedVersion line.
Proof.
  intros Hline.
  assert (Hparts : Forall (fun p => isdigit p = is_decimal p) (split "." line)).
  { revert Hline. induction line as [|c s IH]; simpl.
    - intros _. by repeat constructor.
    - intros [Hc Hs]%andb_true_iff. specialize (IH Hs).
      pose proof (split_not_nil "." s) as Hnn.
      destruct (Ascii.eqb c "."); [by constructor|].
      destruct (split "." s) as [|p ps]; [done|].
      inversion IH as [|? ? Hp Hps]; subst. constructor; [|done].
      unfold isdigit, is_decimal in *. simpl in *.
      destruct (char_isdigit c) eqn:Hd, (char_isdecimal c) eqn:Hdec;
        try done; simpl.
      + destruct p; [done|]. simpl in Hp. done.
      + by apply char_isdecimal_isdigit in Hdec; congruence. }
  unfold is_valid_version, isWellFormedVersion.
  destruct (split "." line) as [|a [|b [|c [|]]]]; try done.
  inversion Hparts as [|? ? Ha Hparts']; subst.
  inversion Hparts' as [|? ? Hb Hparts'']; subst.
  inversion Hparts'' as [|? ? Hc _]; subst.
  simpl. rewrite Ha, Hb, Hc. by rewrite andb_true_r, andb_assoc.
Qed.

(** C3. [is_valid_version] accepts [3.1.²], whose last part is not made of
    decimal digits; the well-formedness of the specification rejects it.
    Partial versions and suffixed ones are rejected by both. *)
Theorem is_valid_version_accepts_superscript :
  is_valid_version version_with_superscript = true /\
  isWellFormedVersion version_with_superscript = false /\
  is_valid_version "3.13" = false /\
  is_valid_version "3.13.0rc1" = false.
Proof. by vm_compute. Qed.

(** ** The eligible versions *)

Lemma decimal_value_int_digits s : decimal_value s = int_digits 0 s.
Proof.
  unfold decimal_value. generalize 0%N.
  induction s as [|c s IH]; intros acc; [done|]. simpl. apply IH.
Qed.

Lemma parsed_version_dotted a b :
  no_char "." a = true -> no_char "." b = true ->
  parsed_version (dotted a b) = (int_digits 0 a, int_digits 0 b).
Proof.
  intros Ha Hb. unfold parsed_version. rewrite split_dotted by done.
  by rewrite !decimal_value_int_digits.
Qed.

Lemma elem_of_eligible_versions output v :
  v ∈ eligible_versions output <->
  isWellFormedVersion v = true /\ startswith v "3." = true /\
  exists line, line ∈ split newline output /\ strip line = v.
Proof.
  unfold eligible_versions.
  rewrite list_elem_of_filter, list_elem_of_fmap, andb_true_iff. split.
  - intros ([Hw Hs] & line & -> & Hin). split; [done|]. split; [done|]. by exists line.
  - intros (Hw & Hs & line & Hin & <-). split; [done|]. by exists line.
Qed.

(** A well-formed version that starts with [3.] is a text [3.a.b] with
    decimal [a] and [b]. *)
Lemma eligible_version_inv v :
  isWellFormedVersion v = true -> startswith v "3." = true ->
  exists a b, v = dotted a b /\ is_decimal a = true /\ is_decimal b = true.
Proof.
  intros Hw Hs.
  destruct (valid_version_inv v Hs (isWellFormedVersion_valid v Hw))
    as (a & b & -> & Ha & Hb).
  exists a, b. split; [done|]. unfold isWellFormedVersion in Hw.
  rewrite split_dotted in Hw by auto using isdigit_no_dot.
  by apply andb_true_iff in Hw as [[_ Hda]%andb_true_iff Hdb].
Qed.

Lemma isWellFormedVersion_dotted a b :
  is_decimal a = true -> is_decimal b = true ->
  isWellFormedVersion (dotted a b) = true.
Proof.
  intros Ha Hb. unfold isWellFormedVersion.
  rewrite split_dotted by auto using isdigit_no_dot, is_decimal_isdigit.
  by rewrite Ha, Hb.
Qed.

(** Every eligible version passes the test of line 115. *)
Lemma eligible_versions_valid output v :
  v ∈ eligible_versions output -> v ∈ valid_versions output.
Proof.
  intros (Hw & Hs & Hline)%elem_of_eligible_versions.
  apply elem_of_valid_versions. split; [|done].
  by rewrite Hs, isWellFormedVersion_valid.
Qed.

(** What line 115 keeps and line 116 reads is an eligible version, read
    as the specification parses it. *)
Lemma valid_version_read output v mp :
  v ∈ valid_versions output -> minor_patch v = Ok mp ->
  v ∈ eligible_versions output /\ parsed_version v = mp.
Proof.
  intros [Hv Hline]%elem_of_valid_versions Hmp.
  apply andb_true_iff in Hv as [Hs Hv].
  destruct (valid_version_inv v Hs Hv) as (a & b & -> & Ha & Hb).
  rewrite minor_patch_dotted in Hmp by done.
  destruct (int a) as [m|] eqn:Hia; [|done].
  destruct (int b) as [p|] eqn:Hib; [|done].
  injection Hmp as <-.
  apply int_ok_inv in Hia as (Hda & _ & ->).
  apply int_ok_inv in Hib as (Hdb & _ & ->).
  split.
  - apply elem_of_eligible_versions.
    split; [by apply isWellFormedVersion_dotted|]. by split.
  - apply parsed_version_dotted; by apply isdigit_no_dot.
Qed.

(** Line 116 reads an eligible version as the specification parses it,
    when it reads it. *)
Lemma eligible_version_read output v mp :
  v ∈ eligible_versions output -> minor_patch v = Ok mp ->
  parsed_version v = mp.
Proof.
  intros Hv%eligible_versions_valid Hmp.
  by destruct (valid_version_read output v mp Hv Hmp).
Qed.

(** When line 116 succeeds, its pairs are those of the eligible versions. *)
Lemma pairs_eligible output pairs :
  traverse minor_patch (valid_versions output) = Ok pairs ->
  (forall v, v ∈ eligible_versions output ->
     minor_patch v = Ok (parsed_version v)) /\
  (forall mp, mp ∈ pairs <-> mp ∈ eligible_pairs output).
Proof.
  intros Hpairs.
  assert (Hread : forall v, v ∈ eligible_versions output ->
            minor_patch v = Ok (parsed_version v)).
  { intros v Hv. pose proof (eligible_versions_valid _ _ Hv) as Hvalid.
    apply list_elem_of_lookup in Hvalid as [i Hi].
    destruct (Forall2_lookup_l _ _ _ _ _ (traverse_ok_inv _ _ _ Hpairs) Hi)
      as (mp & _ & Hmp).
    by rewrite Hmp, (eligible_version_read output v mp). }
  split; [done|]. intros mp.
  rewrite (traverse_ok_elem_of _ _ _ _ Hpairs).
  unfold eligible_pairs. rewrite list_elem_of_fmap. split.
  - intros (v & Hv & Hmp).
    destruct (valid_version_read output v mp Hv Hmp) as [He <-]. by exists v.
  - intros (v & -> & Hv). exists v.
    split; [by apply eligible_versions_valid|by apply Hread].
Qed.

(** Whether [int] reads the parts of a version that line 115 keeps. *)
Lemma valid_version_readable v :
  startswith v "3." = true -> is_valid_version v = true ->
  minor_patch v = Raise ValueError <-> readable_version v = false.
Proof.
  intros Hs Hv. destruct (valid_version_inv v Hs Hv) as (a & b & -> & Ha & Hb).
  rewrite minor_patch_dotted by done.
  unfold readable_version, isWellFormedVersion.
  rewrite split_dotted by auto using isdigit_no_dot.
  change (is_decimal "3") with true. change (within_limit "3") with true.
  cbn [forallb andb]. rewrite andb_true_r.
  destruct (is_decimal a) eqn:Hda, (is_decimal b) eqn:Hdb,
    (within_limit a) eqn:Hla, (within_limit b) eqn:Hlb; simpl;
    rewrite ?(int_decimal a), ?(int_decimal b), ?(int_not_decimal a),
      ?(int_not_decimal b), ?(int_too_long a), ?(int_too_long b) by done;
    simpl;
    rewrite ?(int_not_decimal b), ?(int_too_long b) by done; done.
Qed.

(** ** [get_latest_asdf_versions]: where it misses *)

(** C1. On the listing [3.9.18], [3.10.14] and a count of two, the program
    returns [3.9.18] before [3.10.14]: the last line sorts the assembled
    texts as strings, and the minors 9, 10 of the result are not in
    descending order. *)
Theorem get_latest_asdf_versions_string_order :
  get_latest_asdf_versions listing_3_9_and_3_10 2 = Ok ["3.9.18"; "3.10.14"] /\
  traverse minor_patch ["3.9.18"; "3.10.14"] = Ok [(9, 18); (10, 14)]%N /\
  ~ strictly_descending (([(9, 18); (10, 14)]%N).*1).
Proof.
  split; [by vm_compute|]. split; [by vm_compute|].
  intros H. inversion H as [|? ? _ Hhd]; subst.
  inversion Hhd as [|? ? Hlt]; subst. lia.
Qed.

(** What line 130 does give: the result in descending order of the texts. *)
Lemma get_latest_asdf_versions_sorted_as_strings output count versions :
  get_latest_asdf_versions output count = Ok versions ->
  StronglySorted str_ge versions.
Proof.
  intros Hok.
  destruct (get_latest_asdf_versions_cases output count)
    as [(pairs & _ & Heq)|(Hraise & _)]; [|congruence].
  rewrite Heq in Hok. injection Hok as <-. apply sorted_reverse_sorted.
Qed.

(** C2. On a listing with the line [3.1.²] the program raises: the line
    passes [is_valid_version], and [int] rejects its last part.  The other
    lines of the listing do not matter. *)
Theorem get_latest_asdf_versions_raises :
  version_with_superscript ∈ valid_versions listing_with_superscript /\
  minor_patch version_with_superscript = Raise ValueError /\
  get_latest_asdf_versions listing_with_superscript 3 = Raise ValueError /\
  get_latest_asdf_versions version_with_superscript 3 = Raise ValueError.
Proof.
  split; [|split; [|split]]; [|by vm_compute..].
  apply elem_of_valid_versions. split; [by vm_compute|].
  exists version_with_superscript. split; [|by vm_compute].
  change (split newline listing_with_superscript)
    with ["3.12.1"; "3.11.7"; version_with_superscript].
  do 2 right. left.
Qed.

(** The program returns on every listing in which [int] reads the parts
    of every version that line 115 keeps. *)
Lemma get_latest_asdf_versions_returns output count :
  (forall v, v ∈ valid_versions output -> readable_version v = true) ->
  exists versions, get_latest_asdf_versions output count = Ok versions.
Proof.
  intros Hdec.
  destruct (get_latest_asdf_versions_cases output count)
    as [(pairs & _ & ->)|(_ & v & Hv & Hraise)]; [by eexists|exfalso].
  specialize (Hdec v Hv).
  apply elem_of_valid_versions in Hv as [Hv _].
  apply andb_true_iff in Hv as [Hs Hv].
  apply (valid_version_readable v Hs Hv) in Hraise. congruence.
Qed.

(** ** [get_latest_asdf_versions]: what it returns *)

(** When line 115 keeps no line of the text, the program returns the
    empty list; so it does on the empty text. *)
Lemma get_latest_asdf_versions_none_kept (output : string) (count : Z) :
  (forall line, line ∈ split newline output ->
     startswith (strip line) "3." && is_valid_version (strip line) = false) ->
  get_latest_asdf_versions output count = Ok [].
Proof.
  intros Htext.
  assert (Hvv : valid_versions output = []).
  { apply elem_of_nil_inv.
    intros v (Hv & line & Hin & <-)%elem_of_valid_versions.
    rewrite (Htext line Hin) in Hv. done. }
  unfold get_latest_asdf_versions. rewrite Hvv.
  rewrite (latest_of_valid_ok [] count []) by done.
  unfold selection, latest_set. simpl. by rewrite elements_empty.
Qed.

(** C9. The text [3.1.²] has no eligible version, its one line not being
    well-formed, and the program raises on it instead of returning the
    empty list; on the empty text, and on a listing none of whose lines
    passes for a version, it does return the empty list. *)
Theorem get_latest_asdf_versions_no_eligible_raises :
  eligible_versions version_with_superscript = [] /\
  get_latest_asdf_versions version_with_superscript 3 = Raise ValueError /\
  eligible_versions "" = [] /\
  get_latest_asdf_versions "" 3 = Ok [] /\
  eligible_versions listing_without_eligible = [] /\
  get_latest_asdf_versions listing_without_eligible 3 = Ok [].
Proof. repeat split; by vm_compute. Qed.

(** C6. Every entry of the returned list matches [^3\.\d+\.\d+$], no two
    entries have the same minor, and there are at most [count] entries. *)
Theorem get_latest_asdf_versions_contract
    (output : string) (count : Z) (versions : list string) :
  (0 < count)%Z ->
  get_latest_asdf_versions output count = Ok versions ->
  Forall (fun s => matches_version_pattern s = true) versions /\
  (exists sel, traverse minor_patch versions = Ok sel /\ NoDup (sel.*1)) /\
  (0 <= Z.of_nat (length versions) <= count)%Z.
Proof.
  intros Hcount (pairs & sel & _ & Hsel & Hperm & ->)%get_latest_asdf_versions_ok_inv.
  split; [|split].
  - apply Forall_forall. intros s (mp & -> & _)%list_elem_of_fmap.
    apply matches_version_pattern_format.
  - exists sel. split; [done|].
    rewrite Hperm, selection_minors. apply NoDup_elements.
  - rewrite length_map, Hperm. unfold selection. rewrite length_map.
    change (length (elements (latest_set pairs count)))
      with (size (latest_set pairs count)).
    rewrite latest_set_size by done. lia.
Qed.

Lemma get_latest_asdf_versions_contract_witness :
  Forall (fun s => matches_version_pattern s = true) ["3.9.18"; "3.10.14"] /\
  (exists sel, traverse minor_patch ["3.9.18"; "3.10.14"] = Ok sel /\
     NoDup (sel.*1)) /\
  (0 <= Z.of_nat (length ["3.9.18"; "3.10.14"]) <= 2)%Z.
Proof.
  apply (get_latest_asdf_versions_contract listing_3_9_and_3_10 2);
    [lia|by vm_compute].
Defined.

(** When the program returns, the minors of its result are distinct
    minors of the eligible versions of the text, every such minor that is
    left out is below every minor of the result, and the result has
    min(count, D) entries, [D] being the number of distinct minors of the
    eligible versions. *)
Lemma get_latest_asdf_versions_minors
    (output : string) (count : Z) (versions : list string) :
  (0 < count)%Z ->
  get_latest_asdf_versions output count = Ok versions ->
  exists sel,
    traverse minor_patch versions = Ok sel /\
    NoDup (sel.*1) /\
    minors_of sel ⊆ minors_of (eligible_pairs output) /\
    size (minors_of sel) =
      Nat.min (Z.to_nat count) (size (minors_of (eligible_pairs output))) /\
    (forall a b, a ∈ minors_of sel -> b ∈ minors_of (eligible_pairs output) ->
                 b ∉ minors_of sel -> (b < a)%N) /\
    length versions = size (minors_of sel).
Proof.
  intros Hcount Hok.
  destruct (get_latest_asdf_versions_ok_inv _ _ _ Hok)
    as (pairs & sel & Hpairs & Hsel & Hperm & Hmap).
  destruct (pairs_eligible _ _ Hpairs) as [_ Hiff].
  rewrite <- (minors_of_ext pairs (eligible_pairs output)) by done.
  assert (Hminors : minors_of sel = latest_set pairs count).
  { apply set_eq. intros m. unfold minors_of.
    rewrite elem_of_list_to_set, Hperm, selection_minors.
    apply elem_of_elements. }
  exists sel. split; [done|].
  rewrite Hminors. split; [|split; [|split; [|split]]].
  - rewrite Hperm, selection_minors. apply NoDup_elements.
  - apply latest_set_subseteq.
  - by apply latest_set_size.
  - intros a b. by apply latest_set_largest.
  - rewrite Hmap, length_map, Hperm. unfold selection. by rewrite length_map.
Qed.

(** C5. The listing [3.12.1], [3.11.7], [3.1.²] has the two eligible
    versions [3.12.1] and [3.11.7], so two distinct eligible minors, fewer
    than the count of three: the program raises on it instead of returning
    the two entries. *)
Theorem get_latest_asdf_versions_fewer_minors_raises :
  eligible_versions listing_with_superscript = ["3.12.1"; "3.11.7"] /\
  eligible_pairs listing_with_superscript = [(12, 1); (11, 7)]%N /\
  size (minors_of (eligible_pairs listing_with_superscript)) = 2 /\
  get_latest_asdf_versions listing_with_superscript 3 = Raise ValueError.
Proof. repeat split; by vm_compute. Qed.

(** C4. The patch of each returned entry is the highest patch among the
    eligible versions of the text, the well-formed lines that start with
    [3.], with the entry's minor: one of them has it, and none has a
    higher one. *)
Theorem get_latest_asdf_versions_highest_patch
    (output : string) (count : Z) (versions : list string) (s : string) :
  (0 < count)%Z ->
  get_latest_asdf_versions output count = Ok versions ->
  s ∈ versions ->
  exists minor patch,
    s = format_version minor patch /\
    minor_patch s = Ok (minor, patch) /\
    parsed_version s = (minor, patch) /\
    (exists v, v ∈ eligible_versions output /\
       parsed_version v = (minor, patch)) /\
    (forall v patch', v ∈ eligible_versions output ->
       parsed_version v = (minor, patch') -> (patch' <= patch)%N).
Proof.
  intros _ (pairs & sel & Hpairs & Hsel & Hperm & ->)%get_latest_asdf_versions_ok_inv.
  intros ([m p] & -> & Hin)%list_elem_of_fmap.
  rewrite Hperm in Hin.
  pose proof (selection_subseteq _ _ _ Hin) as Hsub.
  destruct (traverse_minor_patch_within_limit _ _ _ Hpairs Hsub) as [Hlm Hlp].
  apply elem_of_selection in Hin as [Hm ->].
  apply latest_set_subseteq in Hm.
  destruct (highest_patch_spec pairs m Hm) as (_ & Hin & Hmax).
  destruct (pairs_eligible _ _ Hpairs) as [Hread Hiff].
  exists m, (highest_patch pairs m). split; [done|].
  split; [by apply minor_patch_format|]. split; [|split].
  - unfold format_pair. simpl. rewrite format_version_dotted.
    rewrite parsed_version_dotted
      by (apply isdigit_no_dot, is_decimal_isdigit, str_is_decimal).
    by rewrite !int_digits_str.
  - apply Hiff in Hin. unfold eligible_pairs in Hin.
    apply list_elem_of_fmap in Hin as (v & Hv & Hin). by exists v.
  - intros v p' Hv Hvp. apply Hmax. apply Hiff.
    unfold eligible_pairs. apply list_elem_of_fmap. by exists v.
Qed.

Lemma get_latest_asdf_versions_highest_patch_witness :
  exists minor patch,
    "3.12.1" = format_version minor patch /\
    minor_patch "3.12.1" = Ok (minor, patch) /\
    parsed_version "3.12.1" = (minor, patch) /\
    (exists v, v ∈ eligible_versions listing_of_scenario_4 /\
       parsed_version v = (minor, patch)) /\
    (forall v patch', v ∈ eligible_versions listing_of_scenario_4 ->
       parsed_version v = (minor, patch') -> (patch' <= patch)%N).
Proof.
  apply (get_latest_asdf_versions_highest_patch
           listing_of_scenario_4 2 ["3.12.1"; "3.11.7"]);
    [lia|by vm_compute|left].
Defined.

(** C7. Further copies of a line of the text, put anywhere among its
    lines, do not change what the program returns. *)
Theorem get_latest_asdf_versions_duplicate_lines
    (text : string) (A B : list string) (x : string) (n : nat) (count : Z) :
  (0 < count)%Z ->
  split newline text = A ++ B ->
  x ∈ A ++ B ->
  get_latest_asdf_versions (join newline (A ++ replicate n x ++ B)) count =
  get_latest_asdf_versions text count.
Proof.
  intros Hcount Hlines Hx.
  pose proof (split_parts_no_char newline text) as Hno.
  rewrite Hlines in Hno. rewrite Forall_forall in Hno.
  apply get_latest_asdf_versions_ext; [done|]. intros line.
  rewrite split_join.
  - rewrite Hlines, !elem_of_app, elem_of_replicate in *. naive_solver.
  - intros Hnil. rewrite <- Hlines in Hx.
    apply (f_equal length) in Hnil. rewrite !length_app in Hnil.
    rewrite Hlines, elem_of_app in Hx.
    destruct Hx as [Hx|Hx]; [destruct A|destruct B]; simpl in *;
      try lia; by apply not_elem_of_nil in Hx.
  - apply Forall_forall. intros l.
    rewrite !elem_of_app, elem_of_replicate.
    intros [Hl|[[-> _]|Hl]]; apply Hno; rewrite ?elem_of_app in *; auto.
Qed.

Lemma get_latest_asdf_versions_duplicate_lines_witness :
  get_latest_asdf_versions
    (join newline (["3.12.0"; "3.12.1"] ++ replicate 2 "3.12.1" ++ ["3.11.7"])) 3 =
  get_latest_asdf_versions (join newline ["3.12.0"; "3.12.1"; "3.11.7"]) 3.
Proof.
  apply (get_latest_asdf_versions_duplicate_lines
           (join newline ["3.12.0"; "3.12.1"; "3.11.7"])
           ["3.12.0"; "3.12.1"] ["3.11.7"] "3.12.1" 2 3);
    [lia|by vm_compute|].
  simpl. right. left.
Defined.

(** What line 116 makes of the lines that line 115 keeps. *)
Lemma elem_of_valid_results output r :
  r ∈ map minor_patch (valid_versions output) <->
  exists line, line ∈ split newline output /\
    startswith (strip line) "3." && is_valid_version (strip line) = true /\
    minor_patch (strip line) = r.
Proof.
  rewrite list_elem_of_fmap. split.
  - intros (v & -> & Hv). apply elem_of_valid_versions in Hv.
    destruct Hv as (Hv & line & Hin & <-). by exists line.
  - intros (line & Hin & Hv & <-). exists (strip line). split; [done|].
    apply elem_of_valid_versions. split; [done|]. by exists line.
Qed.

(** The outcome depends on the text only through what line 116 makes of
    the lines that line 115 keeps. *)
Lemma get_latest_asdf_versions_same_results output1 output2 count :
  (0 < count)%Z ->
  (forall r, r ∈ map minor_patch (valid_versions output1) <->
             r ∈ map minor_patch (valid_versions output2)) ->
  get_latest_asdf_versions output1 count = get_latest_asdf_versions output2 count.
Proof.
  intros Hcount Hiff.
  assert (Hno : forall output pairs,
            traverse minor_patch (valid_versions output) = Ok pairs ->
            Raise ValueError ∈ map minor_patch (valid_versions output) -> False).
  { intros output pairs Hpairs (w & Hw & Hin)%list_elem_of_fmap.
    apply list_elem_of_lookup in Hin as [i Hi].
    destruct (Forall2_lookup_l _ _ _ _ _ (traverse_ok_inv _ _ _ Hpairs) Hi)
      as (mp & _ & Hmp). congruence. }
  assert (Hin : forall output pairs,
            traverse minor_patch (valid_versions output) = Ok pairs ->
            forall x, x ∈ pairs <-> Ok x ∈ map minor_patch (valid_versions output)).
  { intros output pairs Hpairs x.
    rewrite (traverse_ok_elem_of _ _ _ _ Hpairs), list_elem_of_fmap.
    split; intros (v & H1 & H2); exists v; by split. }
  destruct (get_latest_asdf_versions_cases output1 count)
    as [(p1 & H1 & ->)|(-> & v1 & Hv1 & Hr1)];
  destruct (get_latest_asdf_versions_cases output2 count)
    as [(p2 & H2 & ->)|(-> & v2 & Hv2 & Hr2)]; [|exfalso..|done].
  - rewrite (selection_ext p1 p2); [done..|].
    intros x. by rewrite (Hin _ _ H1), (Hin _ _ H2).
  - apply (Hno output1 p1 H1). apply Hiff.
    apply list_elem_of_fmap. by exists v2.
  - apply (Hno output2 p2 H2). apply Hiff.
    apply list_elem_of_fmap. by exists v1.
Qed.

Lemma is_decimal_not_space s :
  is_decimal s = true -> str_forallb (fun c => negb (char_isspace c)) s = true.
Proof.
  intros [_ Hs]%andb_true_iff. revert Hs.
  apply str_forallb_impl, char_isdecimal_not_space.
Qed.

(** A text [3.a.b] with decimal [a] and [b] holds no white space, so no
    end of a line either. *)
Lemma dotted_no_space a b :
  is_decimal a = true -> is_decimal b = true ->
  str_forallb (fun c => negb (char_isspace c)) (dotted a b) = true.
Proof.
  intros Ha%is_decimal_not_space Hb%is_decimal_not_space. unfold dotted.
  cbn [str_forallb]. rewrite str_forallb_app, Ha. cbn [str_forallb].
  by rewrite Hb.
Qed.

Lemma dotted_no_newline a b :
  is_decimal a = true -> is_decimal b = true ->
  no_char newline (dotted a b) = true.
Proof.
  intros Ha Hb. unfold no_char.
  apply (str_forallb_impl (fun c => negb (char_isspace c)));
    [|by apply dotted_no_space].
  intros c Hc. apply negb_true_iff.
  destruct (Ascii.eqb_spec c newline) as [->|]; [done|done].
Qed.

(** C10. Each returned entry is assembled from the integers [minor] and
    [patch] of an eligible version of the text, whose numerals have no
    leading zero.  A version of the text written with leading zeros is read
    as the same pair as the version without them: with that version in its
    place, or beside it, the program returns the same list.  And the program
    can return a text that is no line of its input. *)
Theorem get_latest_asdf_versions_reassembled
    (output : string) (count : Z) (versions : list string) :
  (0 < count)%Z ->
  get_latest_asdf_versions output count = Ok versions ->
  Forall (fun s => exists v minor patch,
            v ∈ eligible_versions output /\
            parsed_version v = (minor, patch) /\
            s = "3." +:+ str minor +:+ "." +:+ str patch /\
            no_leading_zero (str minor) /\ no_leading_zero (str patch))
         versions /\
  (forall (A B : list string) (line a b : string) (j k : nat),
     split newline output = A ++ line :: B ->
     strip line = dotted (zeros j +:+ a) (zeros k +:+ b) ->
     is_decimal a = true -> is_decimal b = true ->
     parsed_version (strip line) = parsed_version (dotted a b) /\
     minor_patch (strip line) = Ok (parsed_version (dotted a b)) /\
     minor_patch (dotted a b) = Ok (parsed_version (dotted a b)) /\
     get_latest_asdf_versions (join newline (A ++ dotted a b :: B)) count
       = Ok versions /\
     get_latest_asdf_versions (join newline (A ++ dotted a b :: line :: B)) count
       = Ok versions) /\
  (get_latest_asdf_versions "3.09.01" 3 = Ok ["3.9.1"] /\
   ("3.9.1" ∉ split newline "3.09.01") /\
   get_latest_asdf_versions (join newline ["3.9.1"; "3.09.01"]) 3
     = Ok ["3.9.1"]).
Proof.
  intros Hcount Hok. split; [|split].
  - destruct (get_latest_asdf_versions_ok_inv _ _ _ Hok)
      as (pairs & sel & Hpairs & _ & Hperm & ->).
    destruct (pairs_eligible _ _ Hpairs) as [_ Hiff].
    apply Forall_forall. intros s ([m p] & -> & Hin)%list_elem_of_fmap.
    rewrite Hperm in Hin. apply selection_subseteq, Hiff in Hin.
    unfold eligible_pairs in Hin.
    apply list_elem_of_fmap in Hin as (v & Hv & Hin).
    exists v, m, p. split; [done|]. split; [done|]. split; [done|].
    split; apply str_no_leading_zero.
  - intros A B line a b j k Hlines Hline Ha Hb.
    set (padded := dotted (zeros j +:+ a) (zeros k +:+ b)) in *.
    pose proof (is_decimal_zeros j a Ha) as Hza.
    pose proof (is_decimal_zeros k b Hb) as Hzb.
    assert (Hpass : forall x y, is_decimal x = true -> is_decimal y = true ->
              startswith (dotted x y) "3." && is_valid_version (dotted x y) = true).
    { intros x y Hx Hy. rewrite startswith_dotted.
      by rewrite is_valid_version_dotted by auto using is_decimal_isdigit. }
    assert (Hpadded : padded ∈ valid_versions output).
    { apply elem_of_valid_versions. split; [by apply Hpass|].
      exists line. split; [|done]. rewrite Hlines, elem_of_app. right. left. }
    assert (Hsame : minor_patch padded = minor_patch (dotted a b)).
    { destruct (get_latest_asdf_versions_ok_inv _ _ _ Hok)
        as (pairs & _ & Hpairs & _).
      apply list_elem_of_lookup in Hpadded as [i Hi].
      destruct (Forall2_lookup_l _ _ _ _ _ (traverse_ok_inv _ _ _ Hpairs) Hi)
        as (mp & _ & Hmp).
      unfold padded in *.
      rewrite minor_patch_dotted in Hmp |- * by auto using is_decimal_isdigit.
      rewrite minor_patch_dotted by auto using is_decimal_isdigit.
      destruct (int (zeros j +:+ a)) as [m|] eqn:Hia; [|done].
      destruct (int (zeros k +:+ b)) as [p|] eqn:Hib; [|done].
      pose proof (int_ok_inv _ _ Hia) as (_ & Hla & _).
      pose proof (int_ok_inv _ _ Hib) as (_ & Hlb & _).
      by rewrite <- (int_zeros j a), <- (int_zeros k b), Hia, Hib by done. }
    assert (Hstrip : strip (dotted a b) = dotted a b)
      by (by apply strip_no_space, dotted_no_space).
    assert (Hplain : forall r,
              startswith (strip (dotted a b)) "3." &&
                is_valid_version (strip (dotted a b)) = true /\
              minor_patch (strip (dotted a b)) = r <->
              startswith (strip line) "3." &&
                is_valid_version (strip line) = true /\
              minor_patch (strip line) = r).
    { intros r. rewrite Hstrip, Hline, Hsame. unfold padded.
      rewrite (Hpass a b Ha Hb), (Hpass _ _ Hza Hzb). reflexivity. }
    pose proof (split_parts_no_char newline output) as Hno.
    rewrite Hlines, Forall_app, Forall_cons in Hno.
    destruct Hno as (HnA & Hnl & HnB).
    pose proof (dotted_no_newline a b Ha Hb) as Hnp.
    assert (Hparsed : parsed_version padded = parsed_version (dotted a b)).
    { unfold padded.
      rewrite !parsed_version_dotted
        by auto using isdigit_no_dot, is_decimal_isdigit.
      by rewrite !int_digits_zeros. }
    assert (Hread : minor_patch padded = Ok (parsed_version (dotted a b))).
    { destruct (get_latest_asdf_versions_ok_inv _ _ _ Hok)
        as (pairs & _ & Hpairs & _).
      destruct (pairs_eligible _ _ Hpairs) as [Hread _].
      rewrite <- Hparsed. apply Hread.
      apply elem_of_eligible_versions.
      split; [by apply isWellFormedVersion_dotted|]. split; [done|].
      exists line. split; [|done]. rewrite Hlines, elem_of_app. right. left. }
    split; [by rewrite Hline|]. split; [by rewrite Hline|].
    split; [by rewrite <- Hsame|]. split.
    + assert (Hl1 : split newline (join newline (A ++ dotted a b :: B))
                    = A ++ dotted a b :: B).
      { apply split_join; [by destruct A|]. by rewrite Forall_app, Forall_cons. }
      rewrite <- Hok. apply get_latest_asdf_versions_same_results; [done|].
      intros r. rewrite !elem_of_valid_results, Hl1, Hlines.
      split; intros (l & Hl & Hl'); rewrite elem_of_app, elem_of_cons in Hl;
        destruct Hl as [Hl|[->|Hl]].
      * exists l. split; [|done]. rewrite elem_of_app. by left.
      * exists line. split; [|by apply Hplain].
        rewrite elem_of_app, elem_of_cons. auto.
      * exists l. split; [|done]. rewrite elem_of_app, elem_of_cons. auto.
      * exists l. split; [|done]. rewrite elem_of_app. by left.
      * exists (dotted a b). split; [|by apply Hplain].
        rewrite elem_of_app, elem_of_cons. auto.
      * exists l. split; [|done]. rewrite elem_of_app, elem_of_cons. auto.
    + assert (Hl2 : split newline (join newline (A ++ dotted a b :: line :: B))
                    = A ++ dotted a b :: line :: B).
      { apply split_join; [by destruct A|].
        by rewrite Forall_app, !Forall_cons. }
      rewrite <- Hok. apply get_latest_asdf_versions_same_results; [done|].
      intros r. rewrite !elem_of_valid_results, Hl2, Hlines. split.
      * intros (l & Hl & Hl'). rewrite elem_of_app, !elem_of_cons in Hl.
        destruct Hl as [Hl|[->|[->|Hl]]].
        -- exists l. split; [|done]. rewrite elem_of_app. by left.
        -- exists line. split; [|by apply Hplain].
           rewrite elem_of_app, elem_of_cons. auto.
        -- exists line. split; [|done].
           rewrite elem_of_app, elem_of_cons. auto.
        -- exists l. split; [|done]. rewrite elem_of_app, elem_of_cons. auto.
      * intros (l & Hl & Hl'). rewrite elem_of_app, elem_of_cons in Hl.
        exists l. split; [|done]. rewrite elem_of_app, !elem_of_cons.
        destruct Hl as [Hl|[->|Hl]]; auto.
  - split; [by vm_compute|]. split; [|by vm_compute].
    intros H%list_elem_of_singleton. discriminate H.
Qed.

Lemma get_latest_asdf_versions_reassembled_witness :
  Forall (fun s => exists v minor patch,
            v ∈ eligible_versions "3.09.01" /\
            parsed_version v = (minor, patch) /\
            s = "3." +:+ str minor +:+ "." +:+ str patch /\
            no_leading_zero (str minor) /\ no_leading_zero (str patch))
         ["3.9.1"] /\
  (forall (A B : list string) (line a b : string) (j k : nat),
     split newline "3.09.01" = A ++ line :: B ->
     strip line = dotted (zeros j +:+ a) (zeros k +:+ b) ->
     is_decimal a = true -> is_decimal b = true ->
     parsed_version (strip line) = parsed_version (dotted a b) /\
     minor_patch (strip line) = Ok (parsed_version (dotted a b)) /\
     minor_patch (dotted a b) = Ok (parsed_version (dotted a b)) /\
     get_latest_asdf_versions (join newline (A ++ dotted a b :: B)) 3
       = Ok ["3.9.1"] /\
     get_latest_asdf_versions (join newline (A ++ dotted a b :: line :: B)) 3
       = Ok ["3.9.1"]) /\
  (get_latest_asdf_versions "3.09.01" 3 = Ok ["3.9.1"] /\
   ("3.9.1" ∉ split newline "3.09.01") /\
   get_latest_asdf_versions (join newline ["3.9.1"; "3.09.01"]) 3
     = Ok ["3.9.1"]).
Proof.
  apply (get_latest_asdf_versions_reassembled "3.09.01" 3 ["3.9.1"]);
    [lia|by vm_compute].
Defined.

(** * Further properties of the selection *)

(** ** A count that is not positive *)

(** The test of line 122 never holds for a count below one: the loop runs
    to the end of the list. *)
Lemma collect_minors_nonpositive l count acc :
  (count <= 0)%Z -> collect_minors l count acc = acc ∪ minors_of l.
Proof.
  intros Hcount. revert acc.
  induction l as [|[m p] l IH]; intros acc; simpl.
  - unfold minors_of. simpl. set_solver.
  - rewrite minors_of_cons.
    assert (1 <= size ({[m]} ∪ acc))%nat.
    { rewrite <- (size_singleton (C:=gset N) m).
      apply subseteq_size. set_solver. }
    destruct (Z.eqb_spec (Z.of_nat (size ({[m]} ∪ acc))) count); [lia|].
    rewrite IH. set_solver.
Qed.

Lemma latest_set_nonpositive pairs count :
  (count <= 0)%Z -> latest_set pairs count = minors_of pairs.
Proof.
  intros Hcount. unfold latest_set.
  rewrite collect_minors_nonpositive by done.
  by rewrite (left_id_L ∅ (∪)), minors_of_sort_reverse.
Qed.

Lemma latest_set_ext p1 p2 count :
  (forall x, x ∈ p1 <-> x ∈ p2) -> latest_set p1 count = latest_set p2 count.
Proof.
  intros Hiff. destruct (Z.lt_ge_cases 0 count) as [Hpos|Hneg].
  - by apply collect_minors_ext.
  - rewrite !latest_set_nonpositive by done. by apply minors_of_ext.
Qed.

Lemma selection_ext_any p1 p2 count :
  (forall x, x ∈ p1 <-> x ∈ p2) -> selection p1 count = selection p2 count.
Proof.
  intros Hiff. unfold selection. rewrite (latest_set_ext p1 p2) by done.
  apply map_ext. intros m. f_equal. by apply highest_patch_ext.
Qed.

(** ** The outcome as a function of the eligible versions *)

Lemma get_latest_asdf_versions_eligible_set output1 output2 count :
  (forall v, v ∈ valid_versions output1 <-> v ∈ valid_versions output2) ->
  get_latest_asdf_versions output1 count = get_latest_asdf_versions output2 count.
Proof.
  intros Hiff. unfold get_latest_asdf_versions.
  destruct (traverse_minor_patch_ext (valid_versions output1) (valid_versions output2))
    as [(p1 & p2 & H1 & H2 & Hp)|[H1 H2]].
  - done.
  - apply valid_versions_minor_patch.
  - rewrite (latest_of_valid_ok _ _ _ H1), (latest_of_valid_ok _ _ _ H2).
    by rewrite (selection_ext_any p1 p2).
  - by rewrite (latest_of_valid_raise _ _ _ H1), (latest_of_valid_raise _ _ _ H2).
Qed.

Lemma latest_set_mono pairs count count' :
  (0 < count <= count')%Z -> latest_set pairs count ⊆ latest_set pairs count'.
Proof.
  intros Hcount a Ha.
  destruct (decide (a ∈ latest_set pairs count')) as [|Hna]; [done|exfalso].
  pose proof (latest_set_subseteq pairs count) as Hs.
  pose proof (latest_set_subseteq pairs count') as Hs'.
  assert (Hsub : latest_set pairs count' ⊂ latest_set pairs count).
  { split.
    - intros b Hb.
      destruct (decide (b ∈ latest_set pairs count)) as [|Hnb]; [done|exfalso].
      assert (a < b)%N
        by (apply (latest_set_largest pairs count'); [lia|auto..]).
      assert (b < a)%N
        by (apply (latest_set_largest pairs count); [lia|auto..]).
      lia.
    - intros Hsub. by apply Hna, Hsub. }
  apply subset_size in Hsub.
  rewrite !latest_set_size in Hsub by lia. lia.
Qed.

(** X1. With a count of zero or less the loop never stops early: when
    line 116 reads the eligible versions as [pairs], the program returns
    one entry for every distinct minor of [pairs]. *)
Theorem get_latest_asdf_versions_nonpositive_count
    (output : string) (count : Z) (pairs : list (N * N)) :
  (count <= 0)%Z ->
  traverse minor_patch (valid_versions output) = Ok pairs ->
  exists versions sel,
    get_latest_asdf_versions output count = Ok versions /\
    traverse minor_patch versions = Ok sel /\
    NoDup (sel.*1) /\
    minors_of sel = minors_of pairs /\
    length versions = size (minors_of pairs).
Proof.
  intros Hcount Hpairs.
  pose proof (latest_of_valid_ok _ count _ Hpairs) as Hok.
  fold (get_latest_asdf_versions output count) in Hok.
  destruct (get_latest_asdf_versions_ok_inv _ _ _ Hok)
    as (pairs' & sel & Hpairs' & Hsel & Hperm & Hmap).
  assert (pairs' = pairs) as -> by congruence.
  rewrite Hmap in Hok, Hsel.
  exists (map format_pair sel), sel. split; [done|]. split; [done|].
  assert (Hminors : minors_of sel = minors_of pairs).
  { rewrite <- (latest_set_nonpositive pairs count) by done.
    apply set_eq. intros m. unfold minors_of.
    rewrite elem_of_list_to_set, Hperm, selection_minors.
    apply elem_of_elements. }
  split; [|split; [done|]].
  - rewrite Hperm, selection_minors. apply NoDup_elements.
  - rewrite length_map, Hperm. unfold selection. rewrite length_map.
    by rewrite <- (latest_set_nonpositive pairs count) by done.
Qed.

Lemma get_latest_asdf_versions_nonpositive_count_witness :
  exists versions sel,
    get_latest_asdf_versions listing_of_scenario_1 0 = Ok versions /\
    traverse minor_patch versions = Ok sel /\
    NoDup (sel.*1) /\
    minors_of sel = minors_of
      [(10, 13); (10, 14); (11, 6); (11, 7); (12, 0); (12, 1); (9, 18)]%N /\
    length versions = size (minors_of
      [(10, 13); (10, 14); (11, 6); (11, 7); (12, 0); (12, 1); (9, 18)]%N).
Proof.
  apply (get_latest_asdf_versions_nonpositive_count listing_of_scenario_1 0);
    [lia|by vm_compute].
Defined.

(** X2. A larger count only adds entries: what the program returns for a
    positive count is among what it returns for any larger one. *)
Theorem get_latest_asdf_versions_count_mono
    (output : string) (count count' : Z) (versions : list string) :
  (0 < count <= count')%Z ->
  get_latest_asdf_versions output count = Ok versions ->
  exists versions',
    get_latest_asdf_versions output count' = Ok versions' /\
    versions ⊆ versions'.
Proof.
  intros Hcount Hok.
  destruct (get_latest_asdf_versions_cases output count)
    as [(pairs & Hpairs & Heq)|(Hraise & _)]; [|congruence].
  rewrite Heq in Hok. injection Hok as <-.
  eexists. split.
  { unfold get_latest_asdf_versions. by apply latest_of_valid_ok. }
  intros s. rewrite !sorted_reverse_perm.
  intros ([m p] & -> & Hin)%list_elem_of_fmap.
  apply list_elem_of_fmap. exists (m, p). split; [done|].
  apply elem_of_selection in Hin as [Hm ->]. apply elem_of_selection.
  split; [|done]. by apply (latest_set_mono pairs count count').
Qed.

Lemma get_latest_asdf_versions_count_mono_witness :
  exists versions',
    get_latest_asdf_versions listing_of_scenario_1 4 = Ok versions' /\
    ["3.12.1"; "3.11.7"] ⊆ versions'.
Proof.
  apply (get_latest_asdf_versions_count_mono listing_of_scenario_1 2 4);
    [lia|by vm_compute].
Defined.

(** X3. A line that is not an eligible version has no influence: put
    anywhere among the lines of a text, it leaves the outcome as it was,
    for every count. *)
Theorem get_latest_asdf_versions_other_lines
    (text : string) (A B : list string) (x : string) (count : Z) :
  split newline text = A ++ B ->
  no_char newline x = true ->
  startswith (strip x) "3." && is_valid_version (strip x) = false ->
  get_latest_asdf_versions (join newline (A ++ x :: B)) count =
  get_latest_asdf_versions text count.
Proof.
  intros Hlines Hx Hnot.
  pose proof (split_parts_no_char newline text) as Hno.
  rewrite Hlines in Hno. rewrite Forall_forall in Hno.
  apply get_latest_asdf_versions_eligible_set. intros v.
  rewrite !elem_of_valid_versions, split_join, Hlines.
  - split; intros (Hv & line & Hin & Hs); (split; [done|]); exists line;
      (split; [|done]); rewrite ?elem_of_app, ?elem_of_cons in *.
    + destruct Hin as [?|[->|?]]; auto. rewrite Hs, Hv in Hnot. done.
    + destruct Hin; auto.
  - by destruct A.
  - apply Forall_forall. intros l.
    rewrite elem_of_app, elem_of_cons.
    intros [Hl|[->|Hl]]; [|done|]; apply Hno; rewrite elem_of_app; auto.
Qed.

Lemma get_latest_asdf_versions_other_lines_witness :
  get_latest_asdf_versions
    (join newline (["3.12.0"; "3.12.1"] ++ "3.13.0rc1" :: ["3.11.7"])) 3 =
  get_latest_asdf_versions (join newline ["3.12.0"; "3.12.1"; "3.11.7"]) 3.
Proof.
  apply (get_latest_asdf_versions_other_lines
           (join newline ["3.12.0"; "3.12.1"; "3.11.7"])
           ["3.12.0"; "3.12.1"] ["3.11.7"] "3.13.0rc1" 3);
    by vm_compute.
Defined.

(** X4. The order of the lines of the text has no influence: two texts
    whose lines are the same up to their order have the same outcome, for
    every count. *)
Theorem get_latest_asdf_versions_line_order
    (text1 text2 : string) (count : Z) :
  split newline text1 ≡ₚ split newline text2 ->
  get_latest_asdf_versions text1 count = get_latest_asdf_versions text2 count.
Proof.
  intros Hperm. apply get_latest_asdf_versions_eligible_set. intros v.
  rewrite !elem_of_valid_versions.
  split; intros (Hv & line & Hin & Hs); (split; [done|]); exists line;
    (split; [|done]); [by rewrite <- Hperm|by rewrite Hperm].
Qed.

Lemma get_latest_asdf_versions_line_order_witness :
  get_latest_asdf_versions (join newline ["3.9.18"; "3.12.1"; "3.12.0"]) 1 =
  get_latest_asdf_versions (join newline ["3.12.0"; "3.9.18"; "3.12.1"]) 1.
Proof.
  apply get_latest_asdf_versions_line_order.
  change (["3.9.18"; "3.12.1"; "3.12.0"] ≡ₚ ["3.12.0"; "3.9.18"; "3.12.1"]).
  eapply perm_trans; [apply perm_skip, perm_swap|apply perm_swap].
Defined.

(** X5. The program raises exactly when [int] does not read some part of
    a version that line 115 keeps, a part that is not made of decimals or
    has more digits than the limit of [int] allows, and what it raises then
    is [ValueError]; neither the indexing of the parts nor [max] ever
    raises. *)
Theorem get_latest_asdf_versions_raise_iff
    (output : string) (count : Z) (e : exn) :
  get_latest_asdf_versions output count = Raise e <->
  e = ValueError /\
  exists v, v ∈ valid_versions output /\ readable_version v = false.
Proof.
  split.
  - intros Hraise.
    destruct (get_latest_asdf_versions_cases output count)
      as [(pairs & _ & Heq)|(Heq & v & Hv & Hmp)]; [congruence|].
    split; [congruence|]. exists v. split; [done|].
    apply elem_of_valid_versions in Hv as [Hv _].
    apply andb_true_iff in Hv as [Hs Hv].
    by apply valid_version_readable.
  - intros (-> & v & Hv & Hwf).
    destruct (get_latest_asdf_versions_cases output count)
      as [(pairs & Hpairs & _)|(Heq & _)]; [exfalso|done].
    pose proof Hv as Hv'.
    apply elem_of_valid_versions in Hv' as [Hv' _].
    apply andb_true_iff in Hv' as [Hs Hvalid].
    apply (valid_version_readable v Hs Hvalid) in Hwf.
    apply (traverse_ok_inv minor_patch) in Hpairs.
    apply list_elem_of_lookup in Hv as [i Hi].
    destruct (Forall2_lookup_l _ _ _ _ _ Hpairs Hi) as (mp & _ & Hmp).
    congruence.
Qed.

(** ** The order of the result *)

(** On numerals of the same length the order of the strings is the order
    of the numbers. *)
Lemma compare_decimal a b :
  str_forallb char_isdecimal a = true -> str_forallb char_isdecimal b = true ->
  String.length a = String.length b ->
  String.compare a b = (int_digits 0 a ?= int_digits 0 b)%N.
Proof.
  revert b. induction a as [|c1 a IH]; intros [|c2 b]; try done.
  intros [Hc1 Ha]%andb_true_iff [Hc2 Hb]%andb_true_iff [= Hlen].
  specialize (IH b Ha Hb Hlen).
  pose proof (int_digits_bound a Ha) as Hba.
  pose proof (int_digits_bound b Hb) as Hbb.
  apply char_isdecimal_value in Hc1 as [Hcode1 Hd1].
  apply char_isdecimal_value in Hc2 as [Hcode2 Hd2].
  cbn [String.compare int_digits]. unfold Ascii.compare.
  fold (code c1) (code c2). rewrite Hcode1, Hcode2.
  rewrite (int_digits_acc _ a), (int_digits_acc _ b), <- Hlen.
  rewrite <- Hlen in Hbb.
  set (w := (10 ^ N.of_nat (String.length a))%N) in *.
  destruct (N.compare_spec (48 + digit_value c1) (48 + digit_value c2))
    as [Heq|Hlt|Hgt].
  - assert (digit_value c1 = digit_value c2) as -> by lia.
    rewrite IH. symmetry.
    destruct (N.compare_spec (int_digits 0 a) (int_digits 0 b));
      [apply N.compare_eq_iff|apply N.compare_lt_iff|apply N.compare_gt_iff]; lia.
  - symmetry. apply N.compare_lt_iff. nia.
  - symmetry. apply N.compare_gt_iff. nia.
Qed.

(** Behind the first difference nothing is compared. *)
Lemma compare_app a b ra rb :
  String.length a = String.length b -> a <> b ->
  String.compare (a +:+ ra) (b +:+ rb) = String.compare a b.
Proof.
  revert b. induction a as [|c1 a IH]; intros [|c2 b]; try done.
  intros [= Hlen] Hne.
  change (String c1 a +:+ ra) with (String c1 (a +:+ ra)).
  change (String c2 b +:+ rb) with (String c2 (b +:+ rb)).
  cbn [String.compare].
  destruct (Ascii.compare c1 c2) eqn:Hc; [|done..].
  apply Ascii.compare_eq_iff in Hc as ->.
  apply IH; [done|]. by intros ->.
Qed.

Lemma str_ge_format_version m1 p1 m2 p2 :
  String.length (str m1) = String.length (str m2) -> m1 <> m2 ->
  str_ge (format_version m1 p1) (format_version m2 p2) -> (m2 < m1)%N.
Proof.
  intros Hlen Hne Hge. unfold str_ge, String.le, String.leb in Hge.
  assert (Hcmp : String.compare (format_version m2 p2) (format_version m1 p1)
                 = (m2 ?= m1)%N).
  { rewrite !format_version_dotted. unfold dotted.
    cbn [String.compare]. change (Ascii.compare "3" "3") with Eq.
    change (Ascii.compare "." ".") with Eq. cbv iota.
    rewrite compare_app.
    - pose proof (str_is_decimal m1) as [_ H1]%andb_true_iff.
      pose proof (str_is_decimal m2) as [_ H2]%andb_true_iff.
      by rewrite compare_decimal, !int_digits_str.
    - done.
    - intros Heq. apply Hne. by rewrite <- (int_digits_str m1), <- Heq, int_digits_str. }
  rewrite Hcmp in Hge.
  destruct (N.compare_spec m2 m1); [done|done|]. by simpl in Hge.
Qed.

Lemma minors_descending (sel : list (N * N)) (d : nat) :
  NoDup (sel.*1) ->
  (forall m, m ∈ sel.*1 -> String.length (str m) = d) ->
  StronglySorted str_ge (map format_pair sel) ->
  StronglySorted (fun a b => (b < a)%N) (sel.*1).
Proof.
  induction sel as [|[m p] sel IH]; intros Hnd Hlen Hsorted; [constructor|].
  simpl in *. apply NoDup_cons in Hnd as [Hnin Hnd].
  inversion Hsorted as [|? ? Hs Hall]; subst.
  constructor.
  - apply IH; [done| |done]. intros m' Hm'. apply Hlen. by right.
  - apply Forall_forall. intros m' Hm'.
    pose proof Hm' as Hin.
    apply list_elem_of_fmap in Hin as ([m'' p'] & -> & Hin).
    rewrite Forall_forall in Hall.
    apply (str_ge_format_version m p m'' p').
    + rewrite (Hlen m) by left. rewrite (Hlen m''); [done|by right].
    + intros ->. done.
    + apply (Hall (format_pair (m'', p'))).
      apply list_elem_of_fmap. by exists (m'', p').
Qed.

(** X6. When the minors of the result are written with the same number of
    digits, the result is in strictly descending order of the minor: the
    order of the texts, in which line 130 sorts, is then the order of the
    numbers. *)
Theorem get_latest_asdf_versions_descending_same_digits
    (output : string) (count : Z) (versions : list string)
    (sel : list (N * N)) (d : nat) :
  get_latest_asdf_versions output count = Ok versions ->
  traverse minor_patch versions = Ok sel ->
  (forall m, m ∈ sel.*1 -> String.length (str m) = d) ->
  strictly_descending (sel.*1).
Proof.
  intros Hok Hsel Hlen.
  pose proof (get_latest_asdf_versions_sorted_as_strings _ _ _ Hok) as Hsorted.
  destruct (get_latest_asdf_versions_ok_inv _ _ _ Hok)
    as (pairs & sel' & _ & Hsel' & Hperm & Hmap).
  assert (sel' = sel) as -> by congruence. subst versions.
  apply StronglySorted_Sorted, (minors_descending sel d); [|done..].
  rewrite Hperm, selection_minors. apply NoDup_elements.
Qed.

Lemma get_latest_asdf_versions_descending_same_digits_witness :
  strictly_descending ([(12, 1); (11, 7); (10, 14)]%N).*1.
Proof.
  apply (get_latest_asdf_versions_descending_same_digits
           listing_of_scenario_1 3 ["3.12.1"; "3.11.7"; "3.10.14"]
           [(12, 1); (11, 7); (10, 14)]%N 2);
    [by vm_compute..|].
  intros m Hm. simpl in Hm.
  repeat (apply elem_of_cons in Hm as [->|Hm]; [reflexivity|]).
  by apply not_elem_of_nil in Hm.
Defined.

(** * Further properties of [parse_asdf_output] *)

Lemma lstrip_no_char sep s : no_char sep s = true -> no_char sep (lstrip s) = true.
Proof.
  unfold no_char. induction s as [|c s IH]; [done|].
  intros H. pose proof H as [Hc Hs]%andb_true_iff. simpl.
  destruct (char_isspace c); [by apply IH|done].
Qed.

Lemma rstrip_no_char sep s : no_char sep s = true -> no_char sep (rstrip s) = true.
Proof.
  unfold no_char. induction s as [|c s IH]; [done|].
  intros [Hc Hs]%andb_true_iff. simpl.
  destruct (str_is_empty (rstrip s) && char_isspace c); [done|].
  simpl. rewrite Hc. by apply IH.
Qed.

Lemma strip_no_char sep s : no_char sep s = true -> no_char sep (strip s) = true.
Proof. intros H. by apply rstrip_no_char, lstrip_no_char. Qed.

Lemma trimmed_strip s : trimmed s -> strip s = s.
Proof. intros [Hl Hr]. unfold strip. by rewrite Hl. Qed.

Lemma filter_all {A} (P : A -> Prop) `{!forall x, Decision (P x)} (l : list A) :
  Forall P l -> filter P l = l.
Proof.
  induction 1 as [|x l Hx Hl IH]; [done|].
  rewrite filter_cons_True by done. by rewrite IH.
Qed.

(** X7. [parse_asdf_output] cleans once and for all: the lines it returns,
    joined into a text again, are returned as they are. *)
Theorem parse_asdf_output_idempotent (text : string) :
  parse_asdf_output (join newline (parse_asdf_output text)) =
  parse_asdf_output text.
Proof.
  assert (Hall : Forall (fun v => no_char newline v = true /\
                                strip v = v /\ is_version_line v = true)
                        (parse_asdf_output text)).
  { apply Forall_forall. intros v (line & Hin & Hv & <-)%elem_of_parse_asdf_output.
    pose proof (split_parts_no_char newline text) as Hno.
    rewrite Forall_forall in Hno.
    assert (Hs : strip (strip line) = strip line)
      by apply trimmed_strip, strip_trimmed.
    split; [by apply strip_no_char, Hno|]. split; [done|].
    unfold is_version_line in *. by rewrite Hs. }
  destruct (parse_asdf_output text) as [|v l] eqn:Hparse; [done|].
  unfold parse_asdf_output at 1. rewrite split_join.
  - rewrite filter_all.
    + erewrite map_ext_in; [apply map_id|].
      intros x Hx%list_elem_of_In. rewrite Forall_forall in Hall.
      by apply Hall.
    + eapply Forall_impl; [exact Hall|]. by intros x (_ & _ & ?).
  - done.
  - eapply Forall_impl; [exact Hall|]. by intros x (? & _).
Qed.

(** * Properties of [create_default_python_packages_file] *)

(** ** Appending to a text *)

Lemma string_app_nil_r (s : string) : s +:+ "" = s.
Proof.
  induction s as [|c s IH]; [done|].
  change (String c s +:+ "") with (String c (s +:+ "")). by rewrite IH.
Qed.

Lemma last_char_app_cons s c r :
  last_char (s +:+ String c r) = last_char (String c r).
Proof.
  induction s as [|c' s IH]; [done|].
  rewrite string_app_cons. cbn [last_char]. rewrite IH.
  by destruct s.
Qed.

Lemma last_char_inv s c : last_char s = Some c -> exists s0, s = s0 +:+ String c "".
Proof.
  induction s as [|c' s IH]; [done|]. cbn [last_char].
  destruct s as [|c'' s].
  - intros [= ->]. by exists "".
  - intros (s0 & Hs0)%IH. exists (String c' s0).
    rewrite string_app_cons. by rewrite <- Hs0.
Qed.

(** The program writes [written (missing_packages content)] at the end. *)
Lemma foldl_write_line content (l : list string) :
  foldl write_line content l = content +:+ written l.
Proof.
  revert content. induction l as [|p l IH]; intros content; simpl.
  - by rewrite string_app_nil_r.
  - rewrite IH. unfold write_line. rewrite !string_app_assoc.
    by rewrite string_app_cons.
Qed.

Lemma foldl_write_missing (S : gset string) content (l : list string) :
  foldl (fun content package =>
           if decide (package ∈ S) then content
           else write_line content package) content l
  = content +:+ written (filter (fun package => package ∉ S) l).
Proof.
  revert content. induction l as [|p l IH]; intros content; simpl.
  - by rewrite string_app_nil_r.
  - rewrite IH, filter_cons. destruct (decide (p ∈ S)) as [Hin|Hnin].
    + by rewrite decide_False by auto.
    + rewrite decide_True by done. unfold write_line. simpl.
      rewrite !string_app_assoc. by rewrite string_app_cons.
Qed.

Lemma create_existing content :
  create_default_python_packages_file (Some content) =
  Some (content +:+ written (missing_packages content)).
Proof. unfold create_default_python_packages_file. by rewrite foldl_write_missing. Qed.

Lemma create_absent :
  create_default_python_packages_file None = Some (written packages).
Proof. done. Qed.

(** ** Reading the file *)

Lemma nonspace_not_line_end c :
  negb (char_isspace c) = true ->
  Ascii.eqb c carriage_return = false /\ Ascii.eqb c newline = false.
Proof.
  intros Hc. split.
  - destruct (Ascii.eqb_spec c carriage_return) as [->|]; done.
  - destruct (Ascii.eqb_spec c newline) as [->|]; done.
Qed.

Lemma universal_newlines_line p r :
  str_forallb (fun c => negb (char_isspace c)) p = true ->
  universal_newlines false (p +:+ String newline r) =
  p +:+ String newline (universal_newlines false r).
Proof.
  induction p as [|c p IH]; [done|].
  intros [Hc Hp]%andb_true_iff. rewrite !string_app_cons. simpl.
  destruct (nonspace_not_line_end c Hc) as [-> ->]. by rewrite IH.
Qed.

Lemma universal_newlines_written g (l : list string) :
  Forall (fun p => is_word p = true) l ->
  universal_newlines g (written l) = written l.
Proof.
  intros Hl. revert g. induction Hl as [|p l Hp Hl IH]; intros g; [done|].
  apply andb_true_iff in Hp as [Hne Hp]. cbn [written].
  assert (universal_newlines g (p +:+ String newline (written l)) =
          universal_newlines false (p +:+ String newline (written l))) as ->.
  { destruct p as [|c p]; [done|]. simpl in Hp.
    apply andb_true_iff in Hp as [Hc _]. rewrite string_app_cons. simpl.
    by destruct (nonspace_not_line_end c Hc) as [-> ->]. }
  by rewrite universal_newlines_line, IH.
Qed.

Lemma universal_newlines_app f a b :
  (forall g, universal_newlines g b = b) ->
  universal_newlines f (a +:+ b) = universal_newlines f a +:+ b.
Proof.
  intros Hb. revert f. induction a as [|c a IH]; intros f; [apply Hb|].
  rewrite string_app_cons. simpl.
  destruct (Ascii.eqb c carriage_return); [by rewrite IH|].
  destruct (Ascii.eqb c newline); [|by rewrite IH].
  destruct f; by rewrite IH.
Qed.

Lemma universal_newlines_false_empty s :
  universal_newlines false s = "" -> s = "".
Proof.
  destruct s as [|c s]; [done|]. simpl.
  destruct (Ascii.eqb c carriage_return); [done|].
  by destruct (Ascii.eqb c newline).
Qed.

Lemma universal_newlines_cons f c s :
  universal_newlines f (String c s) =
    if Ascii.eqb c carriage_return
    then String newline (universal_newlines true s)
    else if Ascii.eqb c newline
    then if f then universal_newlines false s
         else String newline (universal_newlines false s)
    else String c (universal_newlines false s).
Proof. done. Qed.

(** A text that ends with the end of a line is read as one that ends with
    [\n], or as the empty text. *)
Lemma universal_newlines_line_end f content :
  content <> "" -> ends_with_line_end content = true ->
  universal_newlines f content = "" \/
  exists t, universal_newlines f content = t +:+ String newline "".
Proof.
  revert f. induction content as [|c s IH]; intros f Hne Hend; [done|].
  destruct s as [|c' s'].
  - unfold ends_with_line_end in Hend. simpl in Hend. simpl.
    destruct (Ascii.eqb c carriage_return); [right; by exists ""|].
    rewrite orb_false_r in Hend. rewrite Hend.
    destruct f; [by left|right; by exists ""].
  - assert (Hend' : ends_with_line_end (String c' s') = true) by exact Hend.
    assert (Hrec : forall g,
              exists t, String newline (universal_newlines g (String c' s'))
                        = t +:+ String newline "").
    { intros g. destruct (IH g) as [->|(t & ->)]; [done|done|by exists ""|].
      by exists (String newline t). }
    rewrite universal_newlines_cons.
    destruct (Ascii.eqb c carriage_return); [right; apply Hrec|].
    destruct (Ascii.eqb c newline).
    + destruct f; [by apply IH|right; apply Hrec].
    + right. destruct (IH false) as [Hempty|(t & ->)]; [done|done| |].
      * by apply universal_newlines_false_empty in Hempty.
      * by exists (String c t).
Qed.

Lemma readlines_not_nil s : s <> "" -> readlines s <> [].
Proof.
  destruct s as [|c s]; [done|]. intros _. simpl.
  destruct (Ascii.eqb c newline); [done|]. by destruct (readlines s).
Qed.

Lemma readlines_app t b :
  readlines ((t +:+ String newline "") +:+ b) =
  readlines (t +:+ String newline "") ++ readlines b.
Proof.
  induction t as [|c t IH].
  - change (("" +:+ String newline "") +:+ b) with (String newline b). done.
  - rewrite !string_app_cons. cbn [readlines]. rewrite IH.
    destruct (Ascii.eqb c newline); [done|].
    pose proof (readlines_not_nil (t +:+ String newline "")) as Hnn.
    destruct (readlines (t +:+ String newline "")) as [|line lines]; [|done].
    exfalso. apply Hnn; [|done]. by destruct t.
Qed.

Lemma readlines_line x r :
  no_char newline x = true ->
  readlines (x +:+ String newline r) = (x +:+ String newline "") :: readlines r.
Proof.
  induction x as [|c x IH]; [done|].
  unfold no_char. intros [Hc Hx]%andb_true_iff. apply negb_true_iff in Hc.
  rewrite !string_app_cons. cbn [readlines]. rewrite Hc. by rewrite IH.
Qed.

Lemma is_word_no_newline p : is_word p = true -> no_char newline p = true.
Proof.
  intros [_ Hp]%andb_true_iff. revert Hp. unfold no_char.
  apply str_forallb_impl. intros c Hc.
  by destruct (nonspace_not_line_end c Hc) as [_ ->].
Qed.

Lemma readlines_written (l : list string) :
  Forall (fun p => is_word p = true) l ->
  readlines (written l) = map (fun p => p +:+ String newline "") l.
Proof.
  induction 1 as [|p l Hp Hl IH]; [done|]. cbn [written map].
  by rewrite readlines_line, IH by by apply is_word_no_newline.
Qed.

Lemma rstrip_word_newline p :
  str_forallb (fun c => negb (char_isspace c)) p = true ->
  rstrip (p +:+ String newline "") = p.
Proof.
  induction p as [|c p IH]; [done|].
  intros [Hc Hp]%andb_true_iff. rewrite string_app_cons. simpl.
  rewrite IH by done. apply negb_true_iff in Hc. by rewrite Hc, andb_false_r.
Qed.

Lemma strip_word_newline p :
  is_word p = true -> strip (p +:+ String newline "") = p.
Proof.
  intros [Hne Hp]%andb_true_iff. unfold strip.
  assert (lstrip (p +:+ String newline "") = p +:+ String newline "") as ->.
  { destruct p as [|c p]; [done|]. simpl in Hp.
    apply andb_true_iff in Hp as [Hc _]. apply negb_true_iff in Hc.
    rewrite string_app_cons. simpl. by rewrite Hc. }
  by apply rstrip_word_newline.
Qed.

(** ** What the file lists after the call *)

Lemma packages_words : Forall (fun p => is_word p = true) packages.
Proof. by repeat constructor. Qed.

Lemma elem_of_missing_packages content p :
  p ∈ missing_packages content <->
  (p ∉ existing_packages content) /\ p ∈ packages.
Proof. unfold missing_packages. by rewrite list_elem_of_filter. Qed.

Lemma missing_packages_words content :
  Forall (fun p => is_word p = true) (missing_packages content).
Proof.
  apply Forall_forall. intros p [_ Hp]%elem_of_missing_packages.
  pose proof packages_words as Hw. rewrite Forall_forall in Hw. by apply Hw.
Qed.

Lemma strip_written_lines (l : list string) :
  Forall (fun p => is_word p = true) l ->
  map strip (readlines (written l)) = l.
Proof.
  intros Hl. rewrite readlines_written, map_map by done.
  erewrite map_ext_in; [apply map_id|].
  intros p Hp%list_elem_of_In. rewrite Forall_forall in Hl.
  by apply strip_word_newline, Hl.
Qed.

(** Behind a text that ends with the end of a line, the written lines are
    read as lines of their own. *)
Lemma existing_packages_app content (l : list string) :
  ends_with_line_end content = true ->
  Forall (fun p => is_word p = true) l ->
  existing_packages (content +:+ written l) =
  existing_packages content ∪ list_to_set l.
Proof.
  intros Hend Hl. unfold existing_packages.
  rewrite universal_newlines_app
    by (intros g; by apply universal_newlines_written).
  assert (Hcase : universal_newlines false content = "" \/
                  exists t, universal_newlines false content
                            = t +:+ String newline "").
  { destruct (decide (content = "")) as [->|Hne]; [by left|].
    by apply universal_newlines_line_end. }
  destruct Hcase as [->|(t & ->)].
  - change ("" +:+ written l) with (written l).
    rewrite strip_written_lines by done. simpl. set_solver.
  - rewrite readlines_app, map_app, strip_written_lines by done.
    by rewrite list_to_set_app_L.
Qed.

Lemma create_fixed content :
  (forall p, p ∈ packages -> p ∈ existing_packages content) ->
  create_default_python_packages_file (Some content) = Some content.
Proof.
  intros Hall. rewrite create_existing.
  assert (missing_packages content = []) as ->.
  { apply elem_of_nil_inv. intros p [Hnin Hp]%elem_of_missing_packages. auto. }
  by rewrite string_app_nil_r.
Qed.

Lemma create_well_terminated file :
  well_terminated file = true ->
  exists content',
    create_default_python_packages_file file = Some content' /\
    (forall p, p ∈ packages -> p ∈ existing_packages content') /\
    (forall content, file = Some content ->
       existing_packages content ⊆ existing_packages content' /\
       exists suffix, content' = content +:+ suffix).
Proof.
  intros Hok. destruct file as [content|].
  - exists (content +:+ written (missing_packages content)).
    split; [apply create_existing|].
    rewrite existing_packages_app by auto using missing_packages_words.
    split.
    + intros p Hp.
      destruct (decide (p ∈ existing_packages content)) as [|Hnin];
        [set_solver|].
      apply elem_of_union. right. apply elem_of_list_to_set.
      by apply elem_of_missing_packages.
    + intros ? [= <-]. split; [set_solver|by eexists].
  - exists (written packages). split; [done|]. split; [|done].
    intros p Hp. change (written packages) with ("" +:+ written packages).
    rewrite existing_packages_app by auto using packages_words.
    apply elem_of_union. right. by apply elem_of_list_to_set.
Qed.

Lemma create_idempotent file :
  well_terminated file = true ->
  create_default_python_packages_file
    (create_default_python_packages_file file) =
  create_default_python_packages_file file.
Proof.
  intros Hok. destruct (create_well_terminated file Hok) as (content' & -> & Hall & _).
  by apply create_fixed.
Qed.

(** X8. When the file is absent or empty, or its text ends with the end
    of a line, then after the call the file exists and lists [pip],
    [setuptools] and [wheel] among its trimmed lines; a file that existed
    keeps its text, with lines added at the end, and lists what it listed
    before. *)
Theorem create_default_python_packages_file_lists_packages
    (file : option string) :
  well_terminated file = true ->
  exists content',
    create_default_python_packages_file file = Some content' /\
    (forall p, p ∈ packages -> p ∈ existing_packages content') /\
    (forall content, file = Some content ->
       existing_packages content ⊆ existing_packages content' /\
       exists suffix, content' = content +:+ suffix).
Proof. apply create_well_terminated. Qed.

Lemma create_default_python_packages_file_lists_packages_witness :
  exists content',
    create_default_python_packages_file (Some packages_file_with_numpy)
      = Some content' /\
    (forall p, p ∈ packages -> p ∈ existing_packages content') /\
    (forall content, Some packages_file_with_numpy = Some content ->
       existing_packages content ⊆ existing_packages content' /\
       exists suffix, content' = content +:+ suffix).
Proof.
  apply (create_default_python_packages_file_lists_packages
           (Some packages_file_with_numpy)).
  reflexivity.
Defined.

(** X9. When the file is absent or empty, or its text ends with the end
    of a line, a second call changes nothing. *)
Theorem create_default_python_packages_file_idempotent (file : option string) :
  well_terminated file = true ->
  create_default_python_packages_file
    (create_default_python_packages_file file) =
  create_default_python_packages_file file.
Proof. apply create_idempotent. Qed.

Lemma create_default_python_packages_file_idempotent_witness :
  create_default_python_packages_file
    (create_default_python_packages_file (Some packages_file_with_numpy)) =
  create_default_python_packages_file (Some packages_file_with_numpy).
Proof.
  apply create_default_python_packages_file_idempotent. reflexivity.
Defined.

Lemma last_char_written a (l : list string) :
  l <> [] -> last_char (a +:+ written l) = Some newline.
Proof.
  revert a. induction l as [|p l IH]; intros a; [done|]. intros _.
  cbn [written]. rewrite <- string_app_assoc, last_char_app_cons.
  cbn [last_char]. destruct l as [|p' l]; [done|].
  specialize (IH "" ltac:(done)).
  change ("" +:+ written (p' :: l)) with (written (p' :: l)) in IH.
  rewrite <- IH. cbn [written]. by destruct p'.
Qed.

(** X10. The third call never changes anything: whatever the file is,
    two calls leave a file that a further call keeps as it is. *)
Theorem create_default_python_packages_file_settles (file : option string) :
  create_default_python_packages_file
    (create_default_python_packages_file
       (create_default_python_packages_file file)) =
  create_default_python_packages_file
    (create_default_python_packages_file file).
Proof.
  destruct file as [content|].
  - rewrite (create_existing content).
    destruct (missing_packages content) as [|p l] eqn:Hmissing.
    + rewrite string_app_nil_r, create_existing, Hmissing, string_app_nil_r.
      by rewrite create_existing, Hmissing, string_app_nil_r.
    + apply create_idempotent.
      unfold well_terminated, ends_with_line_end.
      by rewrite last_char_written.
  - apply create_idempotent. reflexivity.
Qed.

(** ** A text that does not end with the end of a line *)

(** A text is a run of whole lines followed by the beginning of a line. *)
Lemma last_line_split s :
  exists h last, s = h +:+ last /\
    (h = "" \/ exists h0, h = h0 +:+ String newline "") /\
    no_char newline last = true.
Proof.
  induction s as [|c s (h & last & -> & Hh & Hlast)].
  - exists "", "". by split; [|split; [left|]].
  - destruct Hh as [->|(h0 & ->)].
    + destruct (Ascii.eqb c newline) eqn:Hc.
      * apply Ascii.eqb_eq in Hc as ->.
        exists (String newline ""), last.
        split; [done|]. split; [right; by exists ""|done].
      * exists "", (String c last). split; [done|]. split; [by left|].
        unfold no_char in *. simpl. by rewrite Hc.
    + exists (String c h0 +:+ String newline ""), last.
      split; [done|]. split; [right; by eexists|done].
Qed.

Lemma readlines_whole_lines h y :
  h = "" \/ (exists h0, h = h0 +:+ String newline "") ->
  readlines (h +:+ y) = readlines h ++ readlines y.
Proof. intros [->|(h0 & ->)]; [done|apply readlines_app]. Qed.

Lemma readlines_no_newline y :
  y <> "" -> no_char newline y = true -> readlines y = [y].
Proof.
  induction y as [|c y IH]; [done|]. intros _.
  unfold no_char. intros [Hc Hy]%andb_true_iff. apply negb_true_iff in Hc.
  simpl. rewrite Hc. destruct y as [|c' y]; [done|].
  by rewrite IH.
Qed.

Lemma lstrip_app_nonspace a c r :
  char_isspace c = false ->
  exists u, lstrip (a +:+ String c r) = u +:+ String c r.
Proof.
  intros Hc. induction a as [|c' a (u & IH)].
  - exists "". simpl. change ("" +:+ String c r) with (String c r).
    simpl. by rewrite Hc.
  - rewrite string_app_cons. simpl.
    destruct (char_isspace c'); [by exists u|]. by exists (String c' a).
Qed.

Lemma rstrip_app x y : rstrip y <> "" -> rstrip (x +:+ y) = x +:+ rstrip y.
Proof.
  intros Hy. induction x as [|c x IH]; [done|].
  rewrite !string_app_cons. simpl. rewrite IH.
  destruct x as [|c' x]; [|done].
  change ("" +:+ rstrip y) with (rstrip y). by destruct (rstrip y).
Qed.

(** Written straight behind the beginning of a line, a package does not
    make a line of its own. *)
Lemma strip_merged_line last c p :
  char_isspace c = false -> is_word p = true ->
  strip ((last +:+ String c p) +:+ String newline "") <> p.
Proof.
  intros Hc Hp. pose proof Hp as [_ Hw]%andb_true_iff.
  rewrite string_app_assoc, string_app_cons. unfold strip.
  destruct (lstrip_app_nonspace last c (p +:+ String newline "") Hc) as (u & ->).
  assert (Hr : rstrip (String c (p +:+ String newline "")) = String c p)
    by (by rewrite rstrip_cons_nonspace, rstrip_word_newline).
  rewrite rstrip_app by (by rewrite Hr). rewrite Hr.
  intros Heq. apply (f_equal String.length) in Heq.
  rewrite string_app_length in Heq. simpl in Heq. lia.
Qed.

Lemma packages_NoDup : NoDup packages.
Proof.
  apply (bool_decide_unpack (NoDup packages)). by vm_compute.
Qed.

Lemma create_unterminated content p (rest : list string) :
  ends_with_nonspace content = true ->
  missing_packages content = p :: rest ->
  p ∉ existing_packages (content +:+ written (p :: rest)).
Proof.
  intros Hend Hmissing.
  assert (Hp : (p ∉ existing_packages content) /\ p ∈ packages)
    by (apply elem_of_missing_packages; rewrite Hmissing; left).
  destruct Hp as [Hnin Hp].
  assert (Hwords : Forall (fun q => is_word q = true) (p :: rest))
    by (rewrite <- Hmissing; apply missing_packages_words).
  inversion Hwords as [|? ? Hpw Hrw]; subst.
  assert (Hnd : NoDup (p :: rest)).
  { rewrite <- Hmissing. apply NoDup_filter, packages_NoDup. }
  apply NoDup_cons in Hnd as [Hprest _].
  unfold ends_with_nonspace in Hend.
  destruct (last_char content) as [c|] eqn:Hlast; [|done].
  apply negb_true_iff in Hend.
  apply last_char_inv in Hlast as (c0 & ->).
  assert (Hc : forall g, universal_newlines g (String c "") = String c "").
  { intros g. simpl.
    by destruct (nonspace_not_line_end c) as [-> ->]; [rewrite Hend|]. }
  unfold existing_packages in *.
  rewrite universal_newlines_app in *
    by first [done | intros g; by apply universal_newlines_written].
  rewrite universal_newlines_app by done.
  destruct (last_line_split (universal_newlines false c0))
    as (h & last & Hsplit & Hh & Hlastline).
  rewrite Hsplit in Hnin |- *. clear Hsplit.
  assert (Hline : no_char newline (last +:+ String c "") = true).
  { unfold no_char in *. rewrite str_forallb_app, Hlastline. simpl.
    by destruct (nonspace_not_line_end c) as [_ ->]; [rewrite Hend|]. }
  rewrite !string_app_assoc in *.
  rewrite readlines_whole_lines in * by done.
  rewrite (readlines_no_newline (last +:+ String c "")) in Hnin
    by (done || by destruct last).
  cbn [written]. rewrite string_app_cons.
  change (String c ("" +:+ p +:+ String newline (written rest)))
    with (String c p +:+ String newline (written rest)).
  rewrite <- (string_app_assoc last (String c p)).
  rewrite readlines_line.
  - rewrite map_app, map_cons, strip_written_lines by done.
    rewrite map_app in Hnin.
    rewrite elem_of_list_to_set, elem_of_app in Hnin.
    rewrite elem_of_list_to_set, elem_of_app, elem_of_cons.
    intros [Hin|[Heq|Hin]]; [|by eapply strip_merged_line|done].
    apply Hnin. by left.
  - unfold no_char in *. rewrite str_forallb_app in *.
    apply andb_true_iff in Hline as [-> Hcl]. simpl in *.
    apply andb_true_iff in Hcl as [-> _]. simpl.
    by apply is_word_no_newline.
Qed.

(** X11. When the text of the file ends with a character that is not white
    space, the first package the program writes lands on the last line of
    the file: after the call that package is still not among the trimmed
    lines of the file. *)
Theorem create_default_python_packages_file_unterminated
    (content p : string) (rest : list string) :
  ends_with_nonspace content = true ->
  missing_packages content = p :: rest ->
  exists content',
    create_default_python_packages_file (Some content) = Some content' /\
    p ∉ existing_packages content'.
Proof.
  intros Hend Hmissing. exists (content +:+ written (p :: rest)).
  split; [by rewrite create_existing, Hmissing|].
  by apply create_unterminated.
Qed.

Lemma create_default_python_packages_file_unterminated_witness :
  exists content',
    create_default_python_packages_file (Some "numpy") = Some content' /\
    "pip" ∉ existing_packages content'.
Proof.
  apply (create_default_python_packages_file_unterminated
           "numpy" "pip" ["setuptools"; "wheel"]);
    by vm_compute.
Defined.

(** * Properties of the script *)

(** ** The answer of the user *)

Lemma char_lower_y c : char_lower c = "y"%char <-> c = "y"%char \/ c = "Y"%char.
Proof.
  split; [|by intros [->| ->]].
  destruct c as [[] [] [] [] [] [] [] []]; vm_compute; intros H;
    first [discriminate H | by left | by right].
Qed.

Lemma lower_empty s : lower s = "" <-> s = "".
Proof. by destruct s. Qed.

Lemma lower_y s : lower s = "y" <-> s = "y" \/ s = "Y".
Proof.
  destruct s as [|c [|c' s]]; simpl.
  - split; [done|by intros []].
  - split.
    + intros [= Hc]. apply char_lower_y in Hc as [->| ->]; auto.
    + by intros [[= ->]|[= ->]].
  - split; [done|by intros []].
Qed.

(** X12. The answer counts after trimming and without regard to case: the
    script goes on exactly when the user types nothing, [y] or [Y], blanks
    around it or not; every other answer cancels. *)
Theorem cancels_iff (line : string) :
  cancels line = false <->
  strip line = "" \/ strip line = "y" \/ strip line = "Y".
Proof.
  unfold cancels. rewrite andb_false_iff, !negb_false_iff.
  rewrite String.eqb_eq, lower_y.
  assert (str_is_empty (lower (strip line)) = true <-> strip line = "")
    as -> by (by destruct (strip line)).
  tauto.
Qed.

(** ** The packages file during the script *)

Section keeps_file.
Context (run_command : list string -> proc_outcome) (stdin : option string).

Lemma keeps_file_ret {A} (a : A) : keeps_file (ret a).
Proof. done. Qed.

Lemma keeps_file_raise {A} e : keeps_file (@raise A e).
Proof. done. Qed.

Lemma keeps_file_sys_exit {A} n : keeps_file (@sys_exit A n).
Proof. done. Qed.

Lemma keeps_file_emit e : keeps_file (emit e).
Proof. done. Qed.

Lemma keeps_file_print m : keeps_file (print m).
Proof. done. Qed.

Lemma keeps_file_and_then {A B} (c : script A) (k : A -> script B) :
  keeps_file c -> (forall a, keeps_file (k a)) -> keeps_file (and_then c k).
Proof.
  intros Hc Hk s. unfold and_then. specialize (Hc s).
  destruct (c s) as [[a|r] s']; simpl in *; [|done].
  by rewrite Hk.
Qed.

Lemma keeps_file_except {A} (c : script A) handler :
  keeps_file c -> (forall e, keeps_file (handler e)) ->
  keeps_file (except_called_process_error c handler).
Proof.
  intros Hc Hh s. unfold except_called_process_error. specialize (Hc s).
  destruct (c s) as [[a|[[]|]] s']; simpl in *; try done.
  by rewrite Hh.
Qed.

Lemma keeps_file_for_each {A} (l : list A) body :
  (forall x, keeps_file (body x)) -> keeps_file (for_each l body).
Proof.
  intros Hb. induction l as [|x l IH]; [done|].
  by apply keeps_file_and_then.
Qed.

Lemma keeps_file_subprocess_run argv check :
  keeps_file (subprocess_run run_command argv check).
Proof.
  apply keeps_file_and_then; [done|]. intros _.
  destruct (run_command argv) as [|status out]; [done|].
  by destruct (check && negb (status =? 0)%Z).
Qed.

Lemma keeps_file_check_output argv : keeps_file (check_output run_command argv).
Proof.
  apply keeps_file_and_then; [done|]. intros _.
  destruct (run_command argv) as [|status out]; [done|].
  by destruct (negb (status =? 0)%Z).
Qed.

Lemma keeps_file_input : keeps_file (input stdin).
Proof. apply keeps_file_and_then; [done|]. intros _. by destruct stdin. Qed.

Lemma keeps_file_lift {A} (r : result A) : keeps_file (lift r).
Proof. by destruct r. Qed.

Lemma keeps_file_add_asdf_python_plugin :
  keeps_file (add_asdf_python_plugin run_command).
Proof.
  apply keeps_file_except; [|done].
  apply keeps_file_and_then; [apply keeps_file_check_output|].
  intros out. destruct (negb (contains out "python")); [|done].
  apply keeps_file_and_then; [apply keeps_file_subprocess_run|done].
Qed.

Lemma keeps_file_install_version version :
  keeps_file (install_version run_command version).
Proof.
  apply keeps_file_and_then; [done|]. intros _.
  apply keeps_file_except; [apply keeps_file_subprocess_run|done].
Qed.

End keeps_file.

Create HintDb keeps_file.

#[local] Hint Resolve keeps_file_ret keeps_file_raise keeps_file_sys_exit
  keeps_file_emit keeps_file_print keeps_file_and_then keeps_file_except keeps_file_for_each
  keeps_file_subprocess_run keeps_file_check_output keeps_file_input
  keeps_file_lift keeps_file_add_asdf_python_plugin
  keeps_file_install_version : keeps_file.

(** X13. Whatever the commands answer and however the call ends, with a
    return, an exit or an exception, [install_python_versions] has brought
    the packages file up to date, once and before anything else: the file
    at the end is what [create_default_python_packages_file] makes of the
    file at the start. *)
Theorem install_python_versions_file
    (run_command : list string -> proc_outcome) (stdin : option string)
    (count : Z) (s : state) :
  file (install_python_versions run_command stdin count s).2 =
  create_default_python_packages_file (file s).
Proof.
  unfold install_python_versions.
  set (rest := and_then (add_asdf_python_plugin run_command) _).
  assert (Hrest : keeps_file rest).
  { apply keeps_file_and_then; [by auto with keeps_file|]. intros _.
    apply keeps_file_except.
    - apply keeps_file_and_then; [by auto with keeps_file|]. intros _.
      apply keeps_file_and_then; [by auto with keeps_file|]. intros output.
      apply keeps_file_and_then; [by auto with keeps_file|]. intros versions.
      destruct versions as [|version0 versions]; [by auto with keeps_file|].
      do 3 (apply keeps_file_and_then; [by auto with keeps_file|]; intros ?).
      match goal with |- keeps_file (if ?b then _ else _) => destruct b end;
        [by auto with keeps_file|].
      repeat (apply keeps_file_and_then; [by auto with keeps_file|]; intros ?).
      by auto with keeps_file.
    - intros e.
      repeat (apply keeps_file_and_then; [by auto with keeps_file|]; intros ?).
      by auto with keeps_file. }
  unfold and_then at 1. simpl. by rewrite Hrest.
Qed.

(** ** The commands of the script *)

Ltac script_unfold :=
  unfold install_python_versions, add_asdf_python_plugin, subprocess_run,
    check_output, input, create_default_python_packages_file_step,
    except_called_process_error, and_then, print, emit, raise, sys_exit,
    ret, lift;
  simpl.

Lemma added_app s (r : outcome unit * state) t :
  trace r.2 = trace s ++ t -> added s r = t.
Proof. intros H. unfold added. rewrite H. apply drop_app_length. Qed.

(** The loop of lines 164-170: one round for each version, in their order,
    whether the installation succeeds or not. *)
Lemma for_each_install_version run_command (versions : list string) s :
  (forall v, v ∈ versions -> run_command (install_command v) <> NotFound) ->
  for_each versions (install_version run_command) s =
    (Done tt, {| file := file s;
                 trace := trace s ++
                          flat_map (install_events run_command) versions |}).
Proof.
  revert s. induction versions as [|v versions IH]; intros s Hfound.
  - simpl. unfold ret. destruct s. simpl. by rewrite app_nil_r.
  - cbn [for_each flat_map]. unfold and_then at 1.
    assert (Hv : install_version run_command v s =
                 (Done tt, {| file := file s;
                              trace := trace s ++ install_events run_command v |})).
    { unfold install_version, install_events, install_command in *.
      script_unfold.
      destruct (run_command ["asdf"; "install"; "python"; v])
        as [|status out] eqn:Hrun.
      - exfalso. apply (Hfound v); [left|done].
      - destruct (status =? 0)%Z; simpl; by rewrite <- !app_assoc. }
    rewrite Hv, IH.
    + simpl. by rewrite <- app_assoc.
    + intros v' Hv'. apply Hfound. by right.
Qed.

(** X14. When [asdf] is not installed, the script ends with the exception
    [FileNotFoundError] of its first command, [asdf plugin list]: the
    packages file has been written, nothing is printed, and no further
    command is tried. *)
Theorem install_python_versions_without_asdf
    (run_command : list string -> proc_outcome) (stdin : option string)
    (count : Z) (s : state) :
  run_command ["asdf"; "plugin"; "list"] = NotFound ->
  install_python_versions run_command stdin count s =
    (Stop (Raised FileNotFoundError),
     {| file := create_default_python_packages_file (file s);
        trace := trace s ++ [Call ["asdf"; "plugin"; "list"]] |}).
Proof. intros Hrun. script_unfold. by rewrite Hrun. Qed.

Lemma install_python_versions_without_asdf_witness :
  install_python_versions (fun _ => NotFound) (Some "y") 3 fresh =
    (Stop (Raised FileNotFoundError),
     {| file := create_default_python_packages_file None;
        trace := [Call ["asdf"; "plugin"; "list"]] |}).
Proof.
  by apply (install_python_versions_without_asdf (fun _ => NotFound)).
Defined.

Lemma install_version_cases run_command v s :
  exists o t,
    install_version run_command v s =
      (o, {| file := file s; trace := trace s ++ t |}) /\
    (o = Done tt \/
     o = Stop (Raised FileNotFoundError) /\
     run_command (install_command v) = NotFound) /\
    (forall argv, Call argv ∈ t -> argv = install_command v).
Proof.
  unfold install_version, install_command. script_unfold.
  destruct (run_command ["asdf"; "install"; "python"; v]) as [|status out];
    [|destruct (status =? 0)%Z]; simpl; rewrite <- ?app_assoc; simpl;
    eexists _, _; (split; [reflexivity|]); (split; [auto|]);
    intros argv; rewrite ?elem_of_cons, elem_of_nil; naive_solver.
Qed.

(** The loop of lines 164-170 ends normally, or with the exception of a
    program that is not found; it runs nothing but installations. *)
Lemma for_each_install_version_cases run_command (versions : list string) s :
  exists o t,
    for_each versions (install_version run_command) s =
      (o, {| file := file s; trace := trace s ++ t |}) /\
    (o = Done tt \/
     o = Stop (Raised FileNotFoundError) /\
     exists v, v ∈ versions /\ run_command (install_command v) = NotFound) /\
    (forall argv, Call argv ∈ t ->
       exists v, v ∈ versions /\ argv = install_command v).
Proof.
  revert s. induction versions as [|v versions IH]; intros s.
  - exists (Done tt), []. simpl. unfold ret. destruct s; simpl.
    rewrite app_nil_r. split; [done|]. split; [by left|].
    intros argv Hin. by apply elem_of_nil in Hin.
  - cbn [for_each]. unfold and_then at 1.
    destruct (install_version_cases run_command v s)
      as (o1 & t1 & -> & Ho1 & Ht1).
    destruct Ho1 as [-> | [-> Hnf]].
    + destruct (IH {| file := file s; trace := trace s ++ t1 |})
        as (o2 & t2 & -> & Ho2 & Ht2). simpl.
      exists o2, (t1 ++ t2). rewrite app_assoc.
      split; [done|]. split.
      * destruct Ho2 as [-> | (-> & v' & Hv' & Hnf)]; [by left|].
        right. split; [done|]. exists v'. split; [by right|done].
      * intros argv [Hin|Hin]%elem_of_app.
        -- exists v. split; [left|by apply Ht1].
        -- destruct (Ht2 argv Hin) as (v' & Hv' & ->).
           exists v'. split; [by right|done].
    + exists (Stop (Raised FileNotFoundError)), t1.
      split; [done|]. split.
      * right. split; [done|]. exists v. split; [left|done].
      * intros argv Hin. exists v. split; [left|by apply Ht1].
Qed.

(** One step of the script: the next test on which its course depends is
    decided, in every way it can come out. *)
Ltac script_step run_command :=
  match goal with
  | |- context [match run_command ?a with _ => _ end] =>
      destruct (run_command a) as [|? ?] eqn:?
  | |- context [if negb (?st =? 0)%Z then _ else _] =>
      destruct (st =? 0)%Z eqn:?
  | |- context [if negb (contains ?o ?p) then _ else _] =>
      destruct (contains o p) eqn:?
  | |- context [match get_latest_asdf_versions ?o ?c with _ => _ end] =>
      destruct (get_latest_asdf_versions o c) as [[|? ?]|?] eqn:?
  | |- context [match ?i with Some _ => _ | None => _ end] =>
      is_var i; destruct i as [?|] eqn:?
  | |- context [if negb (str_is_empty (lower (strip ?l))) && _ then _ else _] =>
      let H := fresh "Hcancels" in
      destruct (cancels l) eqn:H; unfold cancels in H; rewrite H;
      fold (cancels l) in H
  | |- context [for_each ?vs (install_version run_command) ?s0] =>
      let o := fresh "o" in let t := fresh "t" in
      let Hloop := fresh "Hloop" in let Ho := fresh "Ho" in
      let Ht := fresh "Ht" in let Hnf := fresh "Hnf" in
      destruct (for_each_install_version_cases run_command vs s0)
        as (o & t & Hloop & Ho & Ht);
      rewrite Hloop; clear Hloop; destruct Ho as [-> | [-> Hnf]]
  end;
  cbn -[get_latest_asdf_versions for_each contains lower strip String.eqb
        create_default_python_packages_file app].

Ltac script_run run_command :=
  unfold install_python_versions, add_asdf_python_plugin, subprocess_run,
    check_output, input, create_default_python_packages_file_step,
    except_called_process_error, and_then, print, emit, raise, sys_exit,
    ret, lift;
  cbn -[get_latest_asdf_versions for_each contains lower strip String.eqb
        create_default_python_packages_file app];
  repeat script_step run_command.

(** The events a call has added, once its course is known. *)
Ltac added_events :=
  unfold added; cbn [snd trace];
  rewrite <- ?app_assoc; rewrite drop_app_length; cbn [app].

Ltac in_list :=
  solve [repeat first [apply list_elem_of_here | apply list_elem_of_further]].

(** Every command among the events of [H] is in the list of the goal. *)
Ltac calls_in H :=
  repeat (apply elem_of_cons in H as [H|H];
          [first [discriminate H | injection H as ->; in_list]|]);
  by apply elem_of_nil in H.

(** X15. The script runs nothing but its four preliminary commands unless
    the user has been asked and has not cancelled: any other command in
    what a call adds to the trace comes after an answer that is empty, [y]
    or [Y]. *)
Theorem install_python_versions_asks_first
    (run_command : list string -> proc_outcome) (stdin : option string)
    (count : Z) (s : state) (argv : list string) :
  Call argv ∈ added s (install_python_versions run_command stdin count s) ->
  argv ∉ preliminary_commands ->
  exists line, stdin = Some line /\ cancels line = false.
Proof.
  script_run run_command.
  all: try (intros _ _; by eauto).
  all: added_events; intros Hin Hq; exfalso; apply Hq; clear Hq;
    unfold preliminary_commands.
  all: calls_in Hin.
Qed.

Lemma install_python_versions_asks_first_witness :
  exists line, Some " Y " = Some line /\ cancels line = false.
Proof.
  apply (install_python_versions_asks_first
           (sample_asdf listing_of_scenario_1) (Some " Y ") 3 fresh
           (global_command ["3.12.1"; "3.11.7"; "3.10.14"])).
  - vm_compute. in_list.
  - unfold preliminary_commands, global_command.
    rewrite !elem_of_cons, elem_of_nil. by intros [|[|[|[|]]]].
Defined.

(** ** The commands that install *)

Lemma calls_app t1 t2 : calls (t1 ++ t2) = calls t1 ++ calls t2.
Proof.
  induction t1 as [|[argv|m|] t1 IH]; simpl; [done| |done|done].
  by rewrite IH.
Qed.

Lemma calls_install_events run_command (versions : list string) :
  calls (flat_map (install_events run_command) versions) =
  map install_command versions.
Proof.
  induction versions as [|v versions IH]; [done|].
  cbn [flat_map map]. rewrite calls_app, IH.
  unfold install_events.
  destruct (run_command (install_command v)) as [|status out]; [done|].
  by destruct (negb (status =? 0)%Z).
Qed.

Lemma filter_install_commands (versions : list string) :
  List.filter changes_installation (map install_command versions) =
  map install_command versions.
Proof. induction versions as [|v versions IH]; [done|]. simpl. by rewrite IH. Qed.

Ltac script_cbn :=
  cbn -[get_latest_asdf_versions for_each contains lower strip String.eqb
        create_default_python_packages_file app].

Ltac eval_changes :=
  repeat match goal with
  | |- context [changes_installation ?a] =>
      let b := eval vm_compute in (changes_installation a) in
      change (changes_installation a) with b; cbv iota
  end.

(** X16. When the user agrees, the script asks [asdf] to install every
    selected version, in the order of the selection, and then, once, to
    make all of them global: a version whose installation fails is passed
    to [asdf global] like the others, and no other command of the call
    changes what is installed.  Here every program is found, [asdf
    --version] and the listing succeed, and the selection is not empty. *)
Theorem install_python_versions_installs
    (run_command : list string -> proc_outcome) (stdin : option string)
    (count : Z) (s : state)
    (banner listing line : string) (versions : list string) :
  (forall argv, run_command argv <> NotFound) ->
  run_command ["asdf"; "--version"] = Exited 0 banner ->
  run_command ["asdf"; "list"; "all"; "python"] = Exited 0 listing ->
  get_latest_asdf_versions listing count = Ok versions ->
  versions <> [] ->
  stdin = Some line -> cancels line = false ->
  List.filter changes_installation
    (calls (added s (install_python_versions run_command stdin count s))) =
  map install_command versions ++ [global_command versions].
Proof.
  intros Hfound Hversion Hlist Hversions Hne -> Hcancels.
  unfold cancels in Hcancels.
  destruct versions as [|version0 versions']; [done|].
  unfold install_python_versions, add_asdf_python_plugin, subprocess_run,
    check_output, input, create_default_python_packages_file_step,
    except_called_process_error, and_then, print, emit, raise, sys_exit,
    ret, lift.
  rewrite Hversion, Hlist.
  script_cbn.
  destruct (run_command ["asdf"; "plugin"; "list"]) as [|st out] eqn:Hpl;
    [by apply Hfound in Hpl|].
  destruct (run_command ["asdf"; "plugin"; "add"; "python"])
    as [|st' out'] eqn:Hpa; [by apply Hfound in Hpa|].
  destruct (st =? 0)%Z; script_cbn;
    [destruct (contains out "python"); script_cbn|].
  all: rewrite Hversions; script_cbn; rewrite Hcancels.
  all: rewrite for_each_install_version by (intros v _; apply Hfound);
    script_cbn.
  all: destruct (run_command (["asdf"; "global"; "python"] ++ _))
    as [|st2 out2] eqn:Hg; [by apply Hfound in Hg|].
  all: destruct (run_command ["asdf"; "list"; "python"])
    as [|st3 out3] eqn:Hlp; [by apply Hfound in Hlp|].
  all: destruct (st2 =? 0)%Z; script_cbn; [destruct (st3 =? 0)%Z; script_cbn|].
  all: added_events.
  all: cbn [calls app]; rewrite app_assoc.
  all: change (install_events run_command version0 ++
               flat_map (install_events run_command) versions')
         with (flat_map (install_events run_command) (version0 :: versions')).
  all: rewrite calls_app, calls_install_events; cbn [calls].
  all: change (["asdf"; "global"; "python"] ++ version0 :: versions')
         with (global_command (version0 :: versions')).
  all: cbn [List.filter]; eval_changes.
  all: rewrite List.filter_app, filter_install_commands.
  all: cbn [List.filter]; unfold global_command; cbn [app]; eval_changes.
  all: reflexivity.
Qed.

Lemma install_python_versions_installs_witness :
  List.filter changes_installation
    (calls (added fresh
              (install_python_versions (sample_asdf listing_of_scenario_1)
                 (Some " Y ") 3 fresh))) =
  map install_command ["3.12.1"; "3.11.7"; "3.10.14"] ++
  [global_command ["3.12.1"; "3.11.7"; "3.10.14"]].
Proof.
  apply (install_python_versions_installs
           (sample_asdf listing_of_scenario_1) (Some " Y ") 3 fresh
           "" listing_of_scenario_1 " Y " ["3.12.1"; "3.11.7"; "3.10.14"]).
  - intros argv. unfold sample_asdf. by repeat case_decide.
  - reflexivity.
  - reflexivity.
  - by vm_compute.
  - done.
  - reflexivity.
  - by vm_compute.
Defined.

(** ** How the script ends *)

Ltac in_trace :=
  solve [repeat first [apply list_elem_of_here | apply list_elem_of_further
                      | apply elem_of_app; right]].

Ltac is_checked :=
  unfold checked_command, global_command;
  first [by left | by (right; left) | by (right; right; left)
        | by (right; right; right; eexists)].

Ltac status_known :=
  repeat match goal with
  | H : (_ =? 0)%Z = true |- _ => apply Z.eqb_eq in H; subst
  | H : (_ =? 0)%Z = false |- _ => apply Z.eqb_neq in H
  end.

(** X17. The script exits only with the status 1, and only because one of
    the commands of its outer [try] ([asdf --version], [asdf list all
    python], [asdf global python ...], [asdf list python]) has run and ended
    with a status other than zero, which it has printed; a failure of
    [asdf plugin list], [asdf plugin add python] or [asdf install ...]
    never makes it exit. *)
Theorem install_python_versions_exit
    (run_command : list string -> proc_outcome) (stdin : option string)
    (count : Z) (s : state) (n : Z) :
  (install_python_versions run_command stdin count s).1 = Stop (SystemExit n) ->
  n = 1%Z /\
  exists argv status out,
    checked_command argv /\
    run_command argv = Exited status out /\ status <> 0%Z /\
    Call argv ∈ added s (install_python_versions run_command stdin count s) /\
    Print (ErrorMessage (CalledProcessError argv status)) ∈
      added s (install_python_versions run_command stdin count s).
Proof.
  script_run run_command.
  all: intros H; try discriminate H; injection H as <-; (split; [reflexivity|]).
  all: added_events.
  all: match goal with
       | |- context [ErrorMessage (CalledProcessError ?a ?st)] =>
           match goal with
           | Hrun : _ ?a' = Exited st ?o,
             Hst : (st =? 0)%Z = false |- _ =>
               exists a', st, o; apply Z.eqb_neq in Hst;
               split; [is_checked|];
               split; [exact Hrun|]; split; [exact Hst|];
               split; in_trace
           end
       end.
Qed.

Lemma install_python_versions_exit_witness :
  1%Z = 1%Z /\
  exists argv status out,
    checked_command argv /\
    broken_asdf argv = Exited status out /\ status <> 0%Z /\
    Call argv ∈ added fresh (install_python_versions broken_asdf None 3 fresh) /\
    Print (ErrorMessage (CalledProcessError argv status)) ∈
      added fresh (install_python_versions broken_asdf None 3 fresh).
Proof.
  apply (install_python_versions_exit broken_asdf None 3 fresh 1).
  reflexivity.
Defined.

(** X18. The exceptions that leave the script are of three kinds only:
    [FileNotFoundError], when some program is not found; [EOFError], when
    the input has ended at the question; and the [ValueError] of
    [get_latest_asdf_versions] on the listing of [asdf list all python],
    which nothing in the script catches.  No [CalledProcessError] ever
    leaves it. *)
Theorem install_python_versions_raised
    (run_command : list string -> proc_outcome) (stdin : option string)
    (count : Z) (s : state) (e : script_exn) :
  (install_python_versions run_command stdin count s).1 = Stop (Raised e) ->
  (e = FileNotFoundError /\ exists argv, run_command argv = NotFound) \/
  (e = EOFError /\ stdin = None) \/
  (e = CodeError ValueError /\
   exists listing,
     run_command ["asdf"; "list"; "all"; "python"] = Exited 0 listing /\
     get_latest_asdf_versions listing count = Raise ValueError).
Proof.
  script_run run_command.
  all: intros H; try discriminate H; injection H as <-.
  all: try (left; split; [reflexivity|]; by eauto).
  all: try (left; split; [reflexivity|];
            match goal with
            | Hnf : exists v, _ /\ _ |- _ =>
                destruct Hnf as (v & _ & Hnf); by eauto
            end).
  all: try (right; left; by split).
  all: right; right.
  all: match goal with
       | Hraise : get_latest_asdf_versions ?l ?count = Raise ?e,
         Hrun : _ ["asdf"; "list"; "all"; "python"] = Exited ?st ?l,
         Hst : (?st =? 0)%Z = true |- _ =>
           apply Z.eqb_eq in Hst; subst st;
           destruct (get_latest_asdf_versions_cases l count)
             as [(pairs & _ & Heq)|(Heq & _)]; [congruence|];
           assert (e = ValueError) as -> by congruence;
           split; [reflexivity|]; by exists l
       end.
Qed.

Lemma install_python_versions_raised_witness :
  (CodeError ValueError = FileNotFoundError /\
   exists argv, sample_asdf listing_with_superscript argv = NotFound) \/
  (CodeError ValueError = EOFError /\ Some "y" = None) \/
  (CodeError ValueError = CodeError ValueError /\
   exists listing,
     sample_asdf listing_with_superscript ["asdf"; "list"; "all"; "python"] =
       Exited 0 listing /\
     get_latest_asdf_versions listing 3 = Raise ValueError).
Proof.
  apply (install_python_versions_raised
           (sample_asdf listing_with_superscript) (Some "y") 3 fresh
           (CodeError ValueError)).
  by vm_compute.
Defined.

(** * Properties of [add_asdf_python_plugin] *)

Lemma startswith_prefix s p : startswith s p = true <-> exists b, s = p +:+ b.
Proof.
  revert s. induction p as [|a p IH]; intros s.
  - split; [by exists s|done].
  - destruct s as [|c s]; simpl.
    + split; [done|]. by intros [b Hb].
    + rewrite andb_true_iff, Ascii.eqb_eq, IH. split.
      * intros [-> [b ->]]. by exists b.
      * intros [b Hb]. rewrite string_app_cons in Hb.
        injection Hb as -> ->. split; [done|by exists b].
Qed.

(** [sub in s] holds when [sub] occurs somewhere in [s]. *)
Lemma contains_occurs s sub :
  contains s sub = true <-> exists a b, s = a +:+ sub +:+ b.
Proof.
  induction s as [|c s IH].
  - cbn [contains]. rewrite orb_false_r, startswith_prefix. split.
    + intros [b Hb]. by exists "", b.
    + intros (a & b & Hab). destruct a; [by exists b|done].
  - cbn [contains]. rewrite orb_true_iff, startswith_prefix, IH. split.
    + intros [[b Hb]|(a & b & Hab)].
      * by exists "", b.
      * exists (String c a), b. by rewrite string_app_cons, Hab.
    + intros (a & b & Hab). destruct a as [|c' a].
      * left. by exists b.
      * right. rewrite string_app_cons in Hab. injection Hab as -> ->.
        by exists a, b.
Qed.

Ltac plugin_run run_command :=
  unfold add_asdf_python_plugin, subprocess_run, check_output,
    except_called_process_error, and_then, print, emit, raise, ret;
  cbn -[contains app];
  repeat (script_step run_command);
  added_events.

(** X19. [add_asdf_python_plugin] runs [asdf plugin add python] exactly
    when [asdf plugin list] has succeeded and the text [python] occurs
    nowhere in what it has listed: the name of another plugin that
    contains [python] counts as the plugin, and a listing that fails adds
    nothing. *)
Theorem add_asdf_python_plugin_adds
    (run_command : list string -> proc_outcome) (s : state) :
  Call ["asdf"; "plugin"; "add"; "python"] ∈
    added s (add_asdf_python_plugin run_command s) <->
  exists out,
    run_command ["asdf"; "plugin"; "list"] = Exited 0 out /\
    ~ exists a b, out = a +:+ "python" +:+ b.
Proof.
  plugin_run run_command.
  all: status_known.
  all: split; [intros Hin|intros (out0 & Hrun & Hno)].
  all: try (exfalso; calls_in Hin).
  all: try in_list.
  all: try discriminate Hrun.
  all: try (eexists; split; [reflexivity|]; rewrite <- contains_occurs;
            congruence).
  all: try (injection Hrun as <-; exfalso; apply Hno; by apply contains_occurs).
  all: injection Hrun as -> _; done.
Qed.

(** X20. [add_asdf_python_plugin] prints that the plugin has been added
    exactly when [asdf plugin add python] has run and the program was
    found: the exit status of that command is not looked at, so the
    message is also printed when adding the plugin has failed. *)
Theorem add_asdf_python_plugin_reports
    (run_command : list string -> proc_outcome) (s : state) :
  Print PluginAdded ∈ added s (add_asdf_python_plugin run_command s) <->
  Call ["asdf"; "plugin"; "add"; "python"] ∈
    added s (add_asdf_python_plugin run_command s) /\
  run_command ["asdf"; "plugin"; "add"; "python"] <> NotFound.
Proof.
  plugin_run run_command.
  all: split; [intros Hin|intros [Hin Hfound]].
  all: try (exfalso; calls_in Hin).
  all: try done.
  all: try (split; [in_list|done]).
  all: try in_list.
Qed.
